(** * Ag3: a shallow embedding of [malariagen_data/ag3.py]

    The access layer [Ag3] is modelled as a state-and-exception monad over
    the instance attributes (the discovered releases and the caches).  The
    storage collaborators (fsspec, pandas' CSV reader, zarr) are a read-only
    record of lookup functions carried by the instance, as [self._fs] is. *)

From Stdlib Require Import ZArith Lia Ascii.
From stdpp Require Import base option list strings gmap fin_maps.

Open Scope string_scope.
Open Scope list_scope.

(** ** Exceptions *)

(** Payload of the exceptions the layer and its collaborators raise; the
    constructors name the raise site. *)
Inductive msg :=
  | NoReleasesFound (url : string)
  | ReleaseNotAvailable (release : string)
  | NoReleaseFound (sample_set : string)
  | InvalidSampleSets
  | NoObjectsToConcatenate
  | NeedArraysToConcatenate
  | ShapesDoNotAlign
  | ShapeMismatch
  | BooleanIndexTooLong
  | IndexOutOfBounds (index : Z) (size : nat)
  | NoSubtractLoop.

Inductive exn :=
  | ValueError (m : msg)
  | TypeError (m : msg)
  | KeyError (key : string)
  | IndexError (m : msg)
  | AttributeError (name : string)
  | OSError (path : string)
  | RecursionError.

Inductive result (A : Type) :=
  | Ok (a : A)
  | Raise (e : exn).
Arguments Ok {A} a.
Arguments Raise {A} e.

Definition is_ok {A} (r : result A) : bool :=
  match r with Ok _ => true | Raise _ => false end.



(** ** Python values passed as [sample_sets] *)

#[local] Set Warnings "-register-all".

Inductive pyval :=
  | PStr (s : string)
  | PList (l : list pyval)
  | PTuple (l : list pyval)
  | PNaN
  | PNone.

(** ** Tables (pandas.DataFrame), column-major *)

(** A cell is text or missing (NaN). *)
Abbreviation cell := (option string) (only parsing).

Record DataFrame := mkDF {
  df_index : list nat;
  df_columns : list (string * list cell)
}.

Definition df_len (df : DataFrame) : nat := length (df_index df).

Fixpoint alist_get {V} (k : string) (l : list (string * V)) : option V :=
  match l with
  | [] => None
  | (k', v) :: l' => if decide (k = k') then Some v else alist_get k l'
  end.

Fixpoint alist_set {V} (k : string) (v : V) (l : list (string * V)) : list (string * V) :=
  match l with
  | [] => [(k, v)]
  | (k', v') :: l' =>
      if decide (k = k') then (k, v) :: l' else (k', v') :: alist_set k v l'
  end.

(** [df[c]] *)
Definition df_getitem (df : DataFrame) (c : string) : result (list cell) :=
  match alist_get c (df_columns df) with
  | Some col => Ok col
  | None => Raise (KeyError c)
  end.

(** [df[c] = values], with [values] of the table's length. *)
Definition df_setitem (df : DataFrame) (c : string) (values : list cell) : DataFrame :=
  mkDF (df_index df) (alist_set c values (df_columns df)).

(** [df[c] = scalar] *)
Definition df_setitem_scalar (df : DataFrame) (c : string) (v : string) : DataFrame :=
  df_setitem df c (replicate (df_len df) (Some v)).

(** [values == s] on an object column: elementwise, NaN compares unequal. *)
Definition col_eq (values : list cell) (s : string) : list bool :=
  map (fun x => bool_decide (x = Some s)) values.

(** [a & b] on boolean arrays of one length. *)
Definition mask_and (a b : list bool) : list bool := zip_with andb a b.

Fixpoint masked_assign (loc : list bool) (v : string) (col : list cell) : list cell :=
  match loc, col with
  | b :: loc', x :: col' => (if b then Some v else x) :: masked_assign loc' v col'
  | _, _ => col
  end.

(** [df.loc[loc, c] = v] for an existing column [c]. *)
Definition df_loc_assign (df : DataFrame) (loc : list bool) (c : string) (v : string)
  : DataFrame :=
  match alist_get c (df_columns df) with
  | Some col => df_setitem df c (masked_assign loc v col)
  | None => df
  end.

(** The species column of [_read_species_calls] (lines 167-184), applied to a
    table that was just read. *)
Definition add_species_column (df : DataFrame) : result DataFrame :=
  let df := df_setitem df "species" (replicate (df_len df) None) in
  match df_getitem df "species_gambcolu_arabiensis" with
  | Raise e => Raise e
  | Ok ga =>
    let loc := col_eq ga "arabiensis" in
    let df := df_loc_assign df loc "species" "arabiensis" in
    let loc := col_eq ga "intermediate" in
    let df := df_loc_assign df loc "species" "intermediate_arabiensis_gambiae" in
    match df_getitem df "species_gambiae_coluzzii" with
    | Raise e => Raise e
    | Ok gc =>
      let loc := mask_and (col_eq ga "gamb_colu") (col_eq gc "gambiae") in
      let df := df_loc_assign df loc "species" "gambiae" in
      let loc := mask_and (col_eq ga "gamb_colu") (col_eq gc "coluzzii") in
      let df := df_loc_assign df loc "species" "coluzzii" in
      let loc := mask_and (col_eq ga "gamb_colu") (col_eq gc "intermediate") in
      let df := df_loc_assign df loc "species" "intermediate_gambiae_coluzzii" in
      Ok df
    end
  end.

(** Row numbers of [kr] whose key equals [k], counted from [j]. *)
Fixpoint find_all (k : cell) (kr : list cell) (j : nat) : list nat :=
  match kr with
  | [] => []
  | y :: kr' =>
      if decide (k = y) then j :: find_all k kr' (S j) else find_all k kr' (S j)
  end.

(** Matching row pairs of an inner join, in the order of the left keys. *)
Definition merge_pairs (kl kr : list cell) : list (nat * nat) :=
  mjoin (imap (fun i k => map (pair i) (find_all k kr 0)) kl).

Definition take_rows (col : list cell) (rows : list nat) : list cell :=
  map (fun i => default None (col !! i)) rows.

Definition column_names (df : DataFrame) : list string := map fst (df_columns df).

Definition merge_name (suffix : string) (on : string) (other : list string) (n : string)
  : string :=
  if decide (n <> on /\ n ∈ other) then n +:+ suffix else n.

(** [left.merge(right, on=on, sort=False)]: inner join; columns present on
    both sides other than the key get the suffixes [_x] and [_y]. *)
Definition df_merge (left right : DataFrame) (on : string) : result DataFrame :=
  match df_getitem left on, df_getitem right on with
  | Raise e, _ => Raise e
  | _, Raise e => Raise e
  | Ok kl, Ok kr =>
    let pairs := merge_pairs kl kr in
    Ok (mkDF (seq 0 (length pairs))
         (map (fun nc => (merge_name "_x" on (column_names right) nc.1,
                          take_rows nc.2 (map fst pairs)))
              (df_columns left)
          ++
          map (fun nc => (merge_name "_y" on (column_names left) nc.1,
                          take_rows nc.2 (map snd pairs)))
              (filter (fun nc => nc.1 <> on) (df_columns right))))
  end.

(** Column names of a concatenation: the union, in order of first appearance. *)
Definition concat_columns (dfs : list DataFrame) : list string :=
  foldl (fun acc df => acc ++ filter (fun n => n ∉ acc) (column_names df)) [] dfs.

Definition column_or_nan (df : DataFrame) (n : string) : list cell :=
  match alist_get n (df_columns df) with
  | Some col => col
  | None => replicate (df_len df) None
  end.

(** [pandas.concat(dfs, axis=0, sort=False)] *)
Definition pd_concat (dfs : list DataFrame) : result DataFrame :=
  match dfs with
  | [] => Raise (ValueError NoObjectsToConcatenate)
  | _ =>
    Ok (mkDF (concat (map df_index dfs))
          (map (fun n => (n, concat (map (fun df => column_or_nan df n) dfs)))
               (concat_columns dfs)))
  end.

(** [df.reset_index(drop=True)] *)
Definition reset_index_drop (df : DataFrame) : DataFrame :=
  mkDF (seq 0 (df_len df)) (df_columns df).

(** ** Arrays *)

(** One-dimensional site arrays carry their dtype. *)
Inductive sarray :=
  | IntArray (l : list Z)
  | BytesArray (l : list string).

Definition sa_len (a : sarray) : nat :=
  match a with IntArray l => length l | BytesArray l => length l end.

(** Call data: positions by samples (axis 0 by axis 1); a cell holds the
    values along the remaining axes. *)
Record garray := mkG {
  ga_sites : nat;
  ga_samples : nat;
  ga_rows : list (list (list Z))
}.

Definition ga_wf (g : garray) : Prop :=
  length (ga_rows g) = ga_sites g /\
  Forall (fun r => length r = ga_samples g) (ga_rows g).

Definition count_true (l : list bool) : nat := length (filter (fun b => b = true) l).

(** Boolean selection; a condition shorter than the axis is padded with False. *)
Fixpoint compress_list {A} (cond : list bool) (a : list A) : list A :=
  match cond, a with
  | b :: cond', x :: a' =>
      if b then x :: compress_list cond' a' else compress_list cond' a'
  | _, _ => []
  end.

(** [da.compress(cond, a, axis=0)] on a one-dimensional array: a condition
    longer than the axis is an index error. *)
Definition da_compress1 (cond : list bool) (a : sarray) : result sarray :=
  if decide (length cond <= sa_len a) then
    Ok match a with
       | IntArray l => IntArray (compress_list cond l)
       | BytesArray l => BytesArray (compress_list cond l)
       end
  else Raise (IndexError BooleanIndexTooLong).

(** [da.compress(cond, d, axis=0)] on call data. *)
Definition da_compress (cond : list bool) (d : garray) : result garray :=
  if decide (length cond <= ga_sites d) then
    Ok (mkG (count_true cond) (ga_samples d) (compress_list cond (ga_rows d)))
  else Raise (IndexError BooleanIndexTooLong).

Definition hcat_rows (n : nat) (ds : list garray) : list (list (list Z)) :=
  foldr (fun d acc => zip_with app (ga_rows d) acc) (replicate n []) ds.

(** [da.concatenate(ds, axis=1)] *)
Definition da_concatenate (ds : list garray) : result garray :=
  match ds with
  | [] => Raise (ValueError NeedArraysToConcatenate)
  | d :: ds' =>
    if forallb (fun x => Nat.eqb (ga_sites x) (ga_sites d)) ds' then
      Ok (mkG (ga_sites d) (sum_list (map ga_samples ds)) (hcat_rows (ga_sites d) ds))
    else Raise (ValueError ShapesDoNotAlign)
  end.

(** Columns [lo, lo + n) of call data: [d[:, lo:lo+n]]. *)
Definition ga_block (lo n : nat) (d : garray) : garray :=
  mkG (ga_sites d) n (map (fun r => take n (drop lo r)) (ga_rows d)).

(** ** Storage collaborators *)

(** A cached Python object: its identity and its value. *)
Record obj (A : Type) := mkObj { oid : nat; oval : A }.
Arguments mkObj {A} oid oval.
Arguments oid {A} o.
Arguments oval {A} o.

(** A zarr hierarchy: [root[contig][group][field]]. *)
Abbreviation zgroup A := (gmap string (gmap string (gmap string A))) (only parsing).

(** What the file system holds under a path; [None] when opening or parsing
    raises. *)
Record FileSystem := mkFS {
  fs_ls : string -> option (list string);
  fs_read_csv : string -> option DataFrame;
  fs_zarr_filters : string -> option (zgroup (list bool));
  fs_zarr_sites : string -> option (zgroup sarray);
  fs_zarr_genotypes : string -> option (zgroup garray);
  fs_zarr_genome : string -> option (gmap string (list ascii))
}.

(** The resources the layer opens, by cache key. *)
Inductive resource :=
  | RManifest (release : string)
  | RGeneralMetadata (sample_set : string)
  | RSpeciesCalls (sample_set analysis method : string)
  | RSiteFilters (mask analysis : string)
  | RSnpSites
  | RSnpGenotypes (sample_set : string)
  | RGenome.

#[global] Instance resource_eq_dec : EqDecision resource.
Proof. solve_decision. Defined.

(** ** The instance *)

(** The attributes of an [Ag3] instance, and two counters of the model: the
    next fresh object identity and the log of physical opens attempted. *)
Record Ag3 := mkAg3 {
  _fs : FileSystem;
  _path : string;
  _releases : list string;
  _cache_sample_sets : gmap string (obj DataFrame);
  _cache_general_metadata : gmap string (obj DataFrame);
  _cache_species_calls : gmap (string * string * string) (obj DataFrame);
  _cache_site_filters : gmap (string * string) (obj (zgroup (list bool)));
  _cache_snp_sites : option (obj (zgroup sarray));
  _cache_snp_genotypes : gmap string (obj (zgroup garray));
  _cache_genome : option (obj (gmap string (list ascii)));
  next_oid : nat;
  io_log : list (resource * string)
}.

(** The state-and-exception monad of the methods: a raised exception keeps
    the mutations made before it. *)
Definition M (A : Type) : Type := Ag3 -> result A * Ag3.

Definition ret {A} (a : A) : M A := fun s => (Ok a, s).
Definition raise {A} (e : exn) : M A := fun s => (Raise e, s).
Definition bind {A B} (m : M A) (k : A -> M B) : M B :=
  fun s => match m s with
           | (Ok a, s') => k a s'
           | (Raise e, s') => (Raise e, s')
           end.
Definition get : M Ag3 := fun s => (Ok s, s).
Definition lift {A} (r : result A) : M A := fun s => (r, s).

Notation "'letM' x ':=' m 'in' k" := (bind m (fun x => k))
  (at level 10, x name, m at level 100, k at level 200, only parsing).

Fixpoint mapM {A B} (f : A -> M B) (l : list A) : M (list B) :=
  match l with
  | [] => ret []
  | x :: l' => letM y := f x in letM ys := mapM f l' in ret (y :: ys)
  end.

(** The instance with one more attempt in the log, and with one more object
    allocated. *)
Definition logged (r : resource) (path : string) (s : Ag3) : Ag3 :=
  mkAg3 (_fs s) (_path s) (_releases s) (_cache_sample_sets s)
    (_cache_general_metadata s) (_cache_species_calls s)
    (_cache_site_filters s) (_cache_snp_sites s) (_cache_snp_genotypes s)
    (_cache_genome s) (next_oid s) (io_log s ++ [(r, path)]).

Definition allocated (s : Ag3) : Ag3 :=
  mkAg3 (_fs s) (_path s) (_releases s) (_cache_sample_sets s)
    (_cache_general_metadata s) (_cache_species_calls s)
    (_cache_site_filters s) (_cache_snp_sites s) (_cache_snp_genotypes s)
    (_cache_genome s) (S (next_oid s)) (io_log s).

(** [fs.open(path)] and the reader applied to it: the attempt is logged, a
    fresh object is allocated on success. *)
Definition physical_open {A} (r : resource) (path : string) (content : option A)
  : M (obj A) :=
  fun s =>
    match content with
    | None => (Raise (OSError path), logged r path s)
    | Some v => (Ok (mkObj (next_oid s) v), allocated (logged r path s))
    end.

(** The assignments [self._cache_...[key] = value]. *)
Definition with_sample_sets (k : string) (o : obj DataFrame) (s : Ag3) : Ag3 :=
  mkAg3 (_fs s) (_path s) (_releases s) (<[k:=o]> (_cache_sample_sets s))
    (_cache_general_metadata s) (_cache_species_calls s)
    (_cache_site_filters s) (_cache_snp_sites s) (_cache_snp_genotypes s)
    (_cache_genome s) (next_oid s) (io_log s).

Definition with_general_metadata (k : string) (o : obj DataFrame) (s : Ag3) : Ag3 :=
  mkAg3 (_fs s) (_path s) (_releases s) (_cache_sample_sets s)
    (<[k:=o]> (_cache_general_metadata s)) (_cache_species_calls s)
    (_cache_site_filters s) (_cache_snp_sites s) (_cache_snp_genotypes s)
    (_cache_genome s) (next_oid s) (io_log s).

Definition with_species_calls (k : string * string * string) (o : obj DataFrame)
    (s : Ag3) : Ag3 :=
  mkAg3 (_fs s) (_path s) (_releases s) (_cache_sample_sets s)
    (_cache_general_metadata s) (<[k:=o]> (_cache_species_calls s))
    (_cache_site_filters s) (_cache_snp_sites s) (_cache_snp_genotypes s)
    (_cache_genome s) (next_oid s) (io_log s).

Definition with_site_filters (k : string * string) (o : obj (zgroup (list bool)))
    (s : Ag3) : Ag3 :=
  mkAg3 (_fs s) (_path s) (_releases s) (_cache_sample_sets s)
    (_cache_general_metadata s) (_cache_species_calls s)
    (<[k:=o]> (_cache_site_filters s)) (_cache_snp_sites s) (_cache_snp_genotypes s)
    (_cache_genome s) (next_oid s) (io_log s).

Definition with_snp_sites (o : obj (zgroup sarray)) (s : Ag3) : Ag3 :=
  mkAg3 (_fs s) (_path s) (_releases s) (_cache_sample_sets s)
    (_cache_general_metadata s) (_cache_species_calls s)
    (_cache_site_filters s) (Some o) (_cache_snp_genotypes s)
    (_cache_genome s) (next_oid s) (io_log s).

Definition with_snp_genotypes (k : string) (o : obj (zgroup garray)) (s : Ag3) : Ag3 :=
  mkAg3 (_fs s) (_path s) (_releases s) (_cache_sample_sets s)
    (_cache_general_metadata s) (_cache_species_calls s)
    (_cache_site_filters s) (_cache_snp_sites s) (<[k:=o]> (_cache_snp_genotypes s))
    (_cache_genome s) (next_oid s) (io_log s).

Definition with_genome (o : obj (gmap string (list ascii))) (s : Ag3) : Ag3 :=
  mkAg3 (_fs s) (_path s) (_releases s) (_cache_sample_sets s)
    (_cache_general_metadata s) (_cache_species_calls s)
    (_cache_site_filters s) (_cache_snp_sites s) (_cache_snp_genotypes s)
    (Some o) (next_oid s) (io_log s).

Definition store_sample_sets (k : string) (o : obj DataFrame) : M unit :=
  fun s => (Ok tt, with_sample_sets k o s).
Definition store_general_metadata (k : string) (o : obj DataFrame) : M unit :=
  fun s => (Ok tt, with_general_metadata k o s).
Definition store_species_calls (k : string * string * string) (o : obj DataFrame)
  : M unit :=
  fun s => (Ok tt, with_species_calls k o s).
Definition store_site_filters (k : string * string) (o : obj (zgroup (list bool)))
  : M unit :=
  fun s => (Ok tt, with_site_filters k o s).
Definition store_snp_sites (o : obj (zgroup sarray)) : M unit :=
  fun s => (Ok tt, with_snp_sites o s).
Definition store_snp_genotypes (k : string) (o : obj (zgroup garray)) : M unit :=
  fun s => (Ok tt, with_snp_genotypes k o s).
Definition store_genome (o : obj (gmap string (list ascii))) : M unit :=
  fun s => (Ok tt, with_genome o s).

(** ** Construction *)

Definition public_releases : list string := ["v3"].

(** [p.split("/")[-1]] *)
Fixpoint last_component_from (acc : string) (p : string) : string :=
  match p with
  | EmptyString => acc
  | String c p' =>
      if decide (c = "/"%char) then last_component_from "" p'
      else last_component_from (acc +:+ String c "") p'
  end.
Definition last_component (p : string) : string := last_component_from "" p.

(** [Ag3.__init__], from the file system and path that [url_to_fs] gives
    for [url]. *)
Definition __init__ (fs : FileSystem) (path : string) (pre : bool) : result Ag3 :=
  match fs_ls fs path with
  | None => Raise (OSError path)
  | Some listing =>
    let sub_dirs := map last_component listing in
    let releases := filter (fun d => String.prefix "v3" d = true) sub_dirs in
    let releases :=
      if pre then releases else filter (fun d => d ∈ public_releases) releases in
    if decide (length releases = 0) then Raise (ValueError (NoReleasesFound path))
    else Ok (mkAg3 fs path releases ∅ ∅ ∅ ∅ None ∅ None 0 [])
  end.

(** ** Paths (the f-strings of the source) *)

Definition manifest_path (root release : string) : string :=
  root +:+ "/" +:+ release +:+ "/manifest.tsv".

Definition general_metadata_path (root release sample_set : string) : string :=
  root +:+ "/" +:+ release +:+ "/metadata/general/" +:+ sample_set
    +:+ "/samples.meta.csv".

Definition species_calls_path (root release analysis sample_set method : string)
  : string :=
  root +:+ "/" +:+ release +:+ "/metadata/species_calls_" +:+ analysis +:+ "/"
    +:+ sample_set +:+ "/samples.species_" +:+ method +:+ ".csv".

Definition site_filters_path (root analysis mask : string) : string :=
  root +:+ "/v3/site_filters/" +:+ analysis +:+ "/" +:+ mask +:+ "/".

Definition snp_sites_path (root : string) : string :=
  root +:+ "/v3/snp_genotypes/all/sites/".

Definition snp_genotypes_path (root release sample_set : string) : string :=
  root +:+ "/" +:+ release +:+ "/snp_genotypes/all/" +:+ sample_set +:+ "/".

Definition genome_path (root : string) : string :=
  root +:+ "/reference/genome/agamp4/Anopheles-gambiae-PEST_CHROMOSOMES_AgamP4.zarr".

(** ** Manifests and metadata *)

(** [Ag3.sample_sets] *)
Definition sample_sets (release : string) : M (obj DataFrame) :=
  letM self := get in
  if decide (release ∉ _releases self) then
    raise (ValueError (ReleaseNotAvailable release))
  else
    match _cache_sample_sets self !! release with
    | Some df => ret df
    | None =>
      let path := manifest_path (_path self) release in
      letM df := physical_open (RManifest release) path (fs_read_csv (_fs self) path) in
      let df := mkObj (oid df) (df_setitem_scalar (oval df) "release" release) in
      letM _ := store_sample_sets release df in
      ret df
    end.

(** A cell of a column as [tolist()] gives it. *)
Definition cell_to_py (c : cell) : pyval :=
  match c with Some s => PStr s | None => PNaN end.

(** [Ag3.v3_wild] *)
Definition v3_wild : M (list pyval) :=
  letM df := sample_sets "v3" in
  letM col := lift (df_getitem (oval df) "sample_set") in
  ret (map cell_to_py (filter (fun x => x <> Some "AG1000G-X") col)).

Fixpoint _lookup_release_loop (sample_set : string) (releases : list string) : M string :=
  match releases with
  | [] => raise (ValueError (NoReleaseFound sample_set))
  | release :: rest =>
    letM df_sample_sets := sample_sets release in
    letM col := lift (df_getitem (oval df_sample_sets) "sample_set") in
    if decide (Some sample_set ∈ col) then ret release
    else _lookup_release_loop sample_set rest
  end.

(** [Ag3._lookup_release] *)
Definition _lookup_release (sample_set : string) : M string :=
  letM self := get in
  _lookup_release_loop sample_set (_releases self).

(** [Ag3._read_general_metadata] *)
Definition _read_general_metadata (sample_set : string) : M (obj DataFrame) :=
  letM self := get in
  match _cache_general_metadata self !! sample_set with
  | Some df => ret df
  | None =>
    letM release := _lookup_release sample_set in
    let path := general_metadata_path (_path self) release sample_set in
    letM df := physical_open (RGeneralMetadata sample_set) path
                 (fs_read_csv (_fs self) path) in
    let df := mkObj (oid df) (df_setitem_scalar (oval df) "sample_set" sample_set) in
    let df := mkObj (oid df) (df_setitem_scalar (oval df) "release" release) in
    letM _ := store_general_metadata sample_set df in
    ret df
  end.

(** [Ag3._read_species_calls] *)
Definition _read_species_calls (sample_set analysis method : string)
  : M (obj DataFrame) :=
  let key := (sample_set, analysis, method) in
  letM self := get in
  match _cache_species_calls self !! key with
  | Some df => ret df
  | None =>
    letM release := _lookup_release sample_set in
    let path := species_calls_path (_path self) release analysis sample_set method in
    letM df := physical_open (RSpeciesCalls sample_set analysis method) path
                 (fs_read_csv (_fs self) path) in
    letM v := lift (add_species_column (oval df)) in
    let df := mkObj (oid df) v in
    letM _ := store_species_calls key df in
    ret df
  end.

(** [Ag3._prep_sample_sets_arg] *)
Definition _prep_sample_sets_arg (sample_sets_arg : pyval) : M pyval :=
  letM sample_sets_arg :=
    match sample_sets_arg with
    | PStr s =>
      if decide (s = "v3_wild") then
        letM l := v3_wild in ret (PList l)
      else if String.prefix "v3" s then
        letM df := sample_sets s in
        letM col := lift (df_getitem (oval df) "sample_set") in
        ret (PList (map cell_to_py col))
      else ret sample_sets_arg
    | _ => ret sample_sets_arg
    end in
  match sample_sets_arg with
  | PStr _ | PList _ | PTuple _ => ret sample_sets_arg
  | _ => raise (TypeError InvalidSampleSets)
  end.

(** [Ag3.species_calls]; [depth] is the recursion depth left to the
    interpreter. *)
Fixpoint species_calls (depth : nat) (sample_sets_arg : pyval) (analysis method : string)
  : M DataFrame :=
  match depth with
  | 0 => raise RecursionError
  | S depth =>
    letM sample_sets_arg := _prep_sample_sets_arg sample_sets_arg in
    match sample_sets_arg with
    | PStr s =>
      letM df := _read_species_calls s analysis method in
      ret (oval df)
    | PList l | PTuple l =>
      letM dfs := mapM (fun c => species_calls depth c analysis method) l in
      letM df := lift (pd_concat dfs) in
      ret (reset_index_drop df)
    | _ => raise (TypeError InvalidSampleSets)
    end
  end.

(** [Ag3.sample_metadata]; [species_calls_arg] is [None] or the pair
    (analysis, method). *)
Fixpoint sample_metadata (depth : nat) (sample_sets_arg : pyval)
    (species_calls_arg : option (string * string)) : M DataFrame :=
  match depth with
  | 0 => raise RecursionError
  | S depth =>
    letM sample_sets_arg := _prep_sample_sets_arg sample_sets_arg in
    match sample_sets_arg with
    | PStr s =>
      letM df := _read_general_metadata s in
      match species_calls_arg with
      | Some (analysis, method) =>
        letM df_species := _read_species_calls s analysis method in
        lift (df_merge (oval df) (oval df_species) "sample_id")
      | None => ret (oval df)
      end
    | PList l | PTuple l =>
      letM dfs := mapM (fun c => sample_metadata depth c species_calls_arg) l in
      letM df := lift (pd_concat dfs) in
      ret (reset_index_drop df)
    | _ => raise (TypeError InvalidSampleSets)
    end
  end.

(** ** Arrays: site filters, sites, genotypes, genome *)

(** [node[key]] on a zarr group. *)
Definition zgetitem {A} (node : gmap string A) (key : string) : result A :=
  match node !! key with
  | Some x => Ok x
  | None => Raise (KeyError key)
  end.

(** [root[contig][group][field]] *)
Definition zpath {A} (root : zgroup A) (contig group field : string) : result A :=
  match zgetitem root contig with
  | Raise e => Raise e
  | Ok c =>
    match zgetitem c group with
    | Raise e => Raise e
    | Ok g => zgetitem g field
    end
  end.

(** [Ag3._open_site_filters] *)
Definition _open_site_filters (mask analysis : string) : M (obj (zgroup (list bool))) :=
  let key := (mask, analysis) in
  letM self := get in
  match _cache_site_filters self !! key with
  | Some root => ret root
  | None =>
    let path := site_filters_path (_path self) analysis mask in
    letM root := physical_open (RSiteFilters mask analysis) path
                   (fs_zarr_filters (_fs self) path) in
    letM _ := store_site_filters key root in
    ret root
  end.

Definition default_field : string := "filter_pass".
Definition default_analysis : string := "dt_20200416".

(** [Ag3.site_filters] *)
Definition site_filters (contig mask field analysis : string) : M (list bool) :=
  letM root := _open_site_filters mask analysis in
  lift (zpath (oval root) contig "variants" field).

(** [Ag3._open_snp_sites] *)
Definition _open_snp_sites : M (obj (zgroup sarray)) :=
  letM self := get in
  match _cache_snp_sites self with
  | None =>
    let path := snp_sites_path (_path self) in
    letM root := physical_open RSnpSites path (fs_zarr_sites (_fs self) path) in
    letM _ := store_snp_sites root in
    ret root
  | Some root => ret root
  end.

(** What [snp_sites] returns: one array, or the tuple of POS, REF and ALT. *)
Inductive sites_ret :=
  | Single (a : sarray)
  | Tuple (l : list sarray).

(** Lines 355-357: the branch of [snp_sites] for a given field.  The inner
    calls of line 350 pass a field and no mask, so each of them is this
    branch alone. *)
Definition snp_sites_field (contig field : string) : M sarray :=
  letM root := _open_snp_sites in
  lift (zpath (oval root) contig "variants" field).

(** [Ag3.snp_sites] *)
Definition snp_sites (contig : string) (field : option string)
    (site_mask : option string) (site_filters_arg : string) : M sites_ret :=
  letM r :=
    match field with
    | None =>
      letM l := mapM (fun f => snp_sites_field contig f) ["POS"; "REF"; "ALT"] in
      ret (Tuple l)
    | Some f =>
      letM a := snp_sites_field contig f in
      ret (Single a)
    end in
  match site_mask with
  | Some mask =>
    letM filter_pass := site_filters contig mask default_field site_filters_arg in
    match r with
    | Tuple l =>
      letM l' := mapM (fun d => lift (da_compress1 filter_pass d)) l in
      ret (Tuple l')
    | Single d =>
      letM d' := lift (da_compress1 filter_pass d) in
      ret (Single d')
    end
  | None => ret r
  end.

(** [Ag3._open_snp_genotypes] *)
Definition _open_snp_genotypes (sample_set : string) : M (obj (zgroup garray)) :=
  letM self := get in
  match _cache_snp_genotypes self !! sample_set with
  | Some root => ret root
  | None =>
    letM release := _lookup_release sample_set in
    let path := snp_genotypes_path (_path self) release sample_set in
    letM root := physical_open (RSnpGenotypes sample_set) path
                   (fs_zarr_genotypes (_fs self) path) in
    letM _ := store_snp_genotypes sample_set root in
    ret root
  end.

(** [Ag3.snp_genotypes]; [depth] is the recursion depth left to the
    interpreter. *)
Fixpoint snp_genotypes (depth : nat) (contig : string) (sample_sets_arg : pyval)
    (field : string) (site_mask : option string) (site_filters_arg : string)
  : M garray :=
  match depth with
  | 0 => raise RecursionError
  | S depth =>
    letM sample_sets_arg := _prep_sample_sets_arg sample_sets_arg in
    letM d :=
      match sample_sets_arg with
      | PStr s =>
        letM root := _open_snp_genotypes s in
        lift (zpath (oval root) contig "calldata" field)
      | PList l | PTuple l =>
        letM ds := mapM (fun c => snp_genotypes depth contig c field None
                                    default_analysis) l in
        lift (da_concatenate ds)
      | _ => raise (TypeError InvalidSampleSets)
      end in
    match site_mask with
    | Some mask =>
      letM filter_pass := site_filters contig mask default_field site_filters_arg in
      lift (da_compress filter_pass d)
    | None => ret d
    end
  end.

(** [Ag3._open_genome] *)
Definition _open_genome : M (obj (gmap string (list ascii))) :=
  letM self := get in
  match _cache_genome self with
  | None =>
    let path := genome_path (_path self) in
    letM root := physical_open RGenome path (fs_zarr_genome (_fs self) path) in
    letM _ := store_genome root in
    ret root
  | Some root => ret root
  end.

(** [Ag3.genome_sequence] *)
Definition genome_sequence (contig : string) : M (list ascii) :=
  letM genome := _open_genome in
  lift (zgetitem (oval genome) contig).

(** [pos - 1] on a computed array; integers are unbounded here, the stored
    width is the store's. *)
Definition np_sub1 (a : sarray) : result (list Z) :=
  match a with
  | IntArray l => Ok (map (fun p => (p - 1)%Z) l)
  | BytesArray _ => Raise (TypeError NoSubtractLoop)
  end.

(** An index into an axis of length [n]: negative indices count from the end. *)
Definition normalize_index (n : nat) (i : Z) : result nat :=
  if decide (0 <= i < Z.of_nat n)%Z then Ok (Z.to_nat i)
  else if decide (- Z.of_nat n <= i < 0)%Z then Ok (Z.to_nat (i + Z.of_nat n))
  else Raise (IndexError (IndexOutOfBounds i n)).

(** The values of [a[idx] = vals] broadcast to the shape of [idx]. *)
Definition broadcast_to {A} (n : nat) (vals : list A) : result (list A) :=
  if decide (length vals = n) then Ok vals
  else match vals with
       | [v] => Ok (replicate n v)
       | _ => Raise (ValueError ShapeMismatch)
       end.

Fixpoint scatter (a : list bool) (idx : list Z) (vals : list bool) : result (list bool) :=
  match idx, vals with
  | i :: idx', v :: vals' =>
    match normalize_index (length a) i with
    | Ok k => scatter (<[k:=v]> a) idx' vals'
    | Raise e => Raise e
    end
  | _, _ => Ok a
  end.

(** [a[idx] = vals] for an integer index array. *)
Definition np_setitem (a : list bool) (idx : list Z) (vals : list bool)
  : result (list bool) :=
  match broadcast_to (length idx) vals with
  | Raise e => Raise e
  | Ok vals' => scatter a idx vals'
  end.

(** [.compute()] of what [snp_sites] returned. *)
Definition compute (r : sites_ret) : result sarray :=
  match r with
  | Single a => Ok a
  | Tuple _ => Raise (AttributeError "compute")
  end.

(** [Ag3.is_accessible] *)
Definition is_accessible (contig site_mask site_filters_arg : string) : M (list bool) :=
  letM g := genome_sequence contig in
  let seq_length := length g in
  let is_accessible := replicate seq_length false in
  letM r := snp_sites contig (Some "POS") None default_analysis in
  letM pos := lift (compute r) in
  letM filter_pass := site_filters contig site_mask default_field site_filters_arg in
  letM idx := lift (np_sub1 pos) in
  lift (np_setitem is_accessible idx filter_pass).

(** ** A small data set, for evaluating the methods *)

Module Example.

Definition manifest : DataFrame :=
  mkDF [0; 1] [("sample_set", [Some "SS1"; Some "SS2"]); ("sample_count", [Some "3"; Some "1"])].

Definition meta1 : DataFrame :=
  mkDF [0; 1; 2] [("sample_id", [Some "a1"; Some "a2"; Some "a3"]);
                  ("country", [Some "Angola"; Some "Angola"; None])].

Definition meta2 : DataFrame :=
  mkDF [0] [("sample_id", [Some "b1"]); ("country", [Some "Mali"])].

Definition species1 : DataFrame :=
  mkDF [0; 1; 2]
    [("sample_id", [Some "a3"; Some "a1"; Some "zz"]);
     ("species_gambcolu_arabiensis", [Some "gamb_colu"; Some "arabiensis"; None]);
     ("species_gambiae_coluzzii", [Some "coluzzii"; None; Some "gambiae"])].

Definition species2 : DataFrame :=
  mkDF [0]
    [("sample_id", [Some "b1"]);
     ("species_gambcolu_arabiensis", [Some "intermediate"]);
     ("species_gambiae_coluzzii", [Some "gambiae"])].

Definition sites : zgroup sarray :=
  {[ "3R" := {[ "variants" :=
       {[ "POS" := IntArray [2; 4; 5]%Z;
          "REF" := BytesArray ["A"; "C"; "G"];
          "ALT" := BytesArray ["CGT"; "AGT"; "ACT"] ]} ]} ]}.

Definition filters : zgroup (list bool) :=
  {[ "3R" := {[ "variants" := {[ "filter_pass" := [true; false; true] ]} ]} ]}.

Definition gt1 : garray :=
  mkG 3 2 [[[0; 0]; [0; 1]]; [[1; 1]; [0; 0]]; [[0; 1]; [1; 1]]]%Z.
Definition gt2 : garray :=
  mkG 3 1 [[[1; 0]]; [[0; 0]]; [[1; 1]]]%Z.

Definition geno1 : zgroup garray := {[ "3R" := {[ "calldata" := {[ "GT" := gt1 ]} ]} ]}.
Definition geno2 : zgroup garray := {[ "3R" := {[ "calldata" := {[ "GT" := gt2 ]} ]} ]}.

Definition genome : gmap string (list ascii) :=
  {[ "3R" := ["A"; "A"; "C"; "C"; "G"; "T"]%char ]}.

Definition table {A} (l : list (string * A)) (path : string) : option A :=
  alist_get path l.

Definition fs : FileSystem :=
  mkFS (table [("root", ["root/v3"; "root/reference"; "root/v3.1"])])
       (table [("root/v3/manifest.tsv", manifest);
               ("root/v3/metadata/general/SS1/samples.meta.csv", meta1);
               ("root/v3/metadata/general/SS2/samples.meta.csv", meta2);
               ("root/v3/metadata/species_calls_20200422/SS1/samples.species_aim.csv",
                species1);
               ("root/v3/metadata/species_calls_20200422/SS2/samples.species_aim.csv",
                species2)])
       (table [("root/v3/site_filters/dt_20200416/gamb_colu/", filters)])
       (table [("root/v3/snp_genotypes/all/sites/", sites)])
       (table [("root/v3/snp_genotypes/all/SS1/", geno1);
               ("root/v3/snp_genotypes/all/SS2/", geno2)])
       (table [("root/reference/genome/agamp4/Anopheles-gambiae-PEST_CHROMOSOMES_AgamP4.zarr",
                genome)]).

(** The instance [Ag3("root")]. *)
Definition ag3 : Ag3 := mkAg3 fs "root" ["v3"] ∅ ∅ ∅ ∅ None ∅ None 0 [].

End Example.

(** ** Method calls as steps of the instance *)

Inductive call :=
  | call_sample_sets (release : string)
  | call_v3_wild
  | call__lookup_release (sample_set : string)
  | call__read_general_metadata (sample_set : string)
  | call__read_species_calls (sample_set analysis method : string)
  | call__prep_sample_sets_arg (sample_sets_arg : pyval)
  | call_species_calls (depth : nat) (sample_sets_arg : pyval) (analysis method : string)
  | call_sample_metadata (depth : nat) (sample_sets_arg : pyval)
      (species_calls_arg : option (string * string))
  | call__open_site_filters (mask analysis : string)
  | call_site_filters (contig mask field analysis : string)
  | call__open_snp_sites
  | call_snp_sites (contig : string) (field site_mask : option string)
      (site_filters_arg : string)
  | call__open_snp_genotypes (sample_set : string)
  | call_snp_genotypes (depth : nat) (contig : string) (sample_sets_arg : pyval)
      (field : string) (site_mask : option string) (site_filters_arg : string)
  | call__open_genome
  | call_genome_sequence (contig : string)
  | call_is_accessible (contig site_mask site_filters_arg : string).

(** The instance after a call, whether it returned or raised. *)
Definition run (c : call) (s : Ag3) : Ag3 :=
  match c with
  | call_sample_sets r => (sample_sets r s).2
  | call_v3_wild => (v3_wild s).2
  | call__lookup_release ss => (_lookup_release ss s).2
  | call__read_general_metadata ss => (_read_general_metadata ss s).2
  | call__read_species_calls ss a m => (_read_species_calls ss a m s).2
  | call__prep_sample_sets_arg a => (_prep_sample_sets_arg a s).2
  | call_species_calls d a an m => (species_calls d a an m s).2
  | call_sample_metadata d a sc => (sample_metadata d a sc s).2
  | call__open_site_filters m a => (_open_site_filters m a s).2
  | call_site_filters c m f a => (site_filters c m f a s).2
  | call__open_snp_sites => (_open_snp_sites s).2
  | call_snp_sites c f m sf => (snp_sites c f m sf s).2
  | call__open_snp_genotypes ss => (_open_snp_genotypes ss s).2
  | call_snp_genotypes d c a f m sf => (snp_genotypes d c a f m sf s).2
  | call__open_genome => (_open_genome s).2
  | call_genome_sequence c => (genome_sequence c s).2
  | call_is_accessible c m sf => (is_accessible c m sf s).2
  end.

(** [later s s']: the instance [s'] comes from [s] by method calls. *)
Inductive later (s : Ag3) : Ag3 -> Prop :=
  | later_refl : later s s
  | later_step s' c : later s s' -> later s (run c s').

(** Tables have columns of the length of their index; call data has the
    shape it declares. *)
Definition df_wf (df : DataFrame) : Prop :=
  Forall (fun nc => length nc.2 = df_len df) (df_columns df).

Definition zgroup_wf (root : zgroup garray) : Prop :=
  forall contig group field g, zpath root contig group field = Ok g -> ga_wf g.

Definition fs_wf (fs : FileSystem) : Prop :=
  (forall path df, fs_read_csv fs path = Some df -> df_wf df) /\
  (forall path root, fs_zarr_genotypes fs path = Some root -> zgroup_wf root).

(** The instances a program can hold: built by the constructor, then used
    through the methods. *)
Inductive reachable : Ag3 -> Prop :=
  | reachable_init fs path pre s : __init__ fs path pre = Ok s -> reachable s
  | reachable_step s c : reachable s -> reachable (run c s).

(** ** Ghost observations: cached keys and attempts *)

Definition cached (r : resource) (s : Ag3) : Prop :=
  match r with
  | RManifest release => is_Some (_cache_sample_sets s !! release)
  | RGeneralMetadata ss => is_Some (_cache_general_metadata s !! ss)
  | RSpeciesCalls ss a m => is_Some (_cache_species_calls s !! (ss, a, m))
  | RSiteFilters m a => is_Some (_cache_site_filters s !! (m, a))
  | RSnpSites => is_Some (_cache_snp_sites s)
  | RSnpGenotypes ss => is_Some (_cache_snp_genotypes s !! ss)
  | RGenome => is_Some (_cache_genome s)
  end.

(** Number of physical opens of [r] attempted so far. *)
Definition attempts (r : resource) (log : list (resource * string)) : nat :=
  length (filter (fun e => e.1 = r) log).

(** The rule of the specification for the derived species of a row. *)
Definition species_of (gambcolu_arabiensis gambiae_coluzzii : cell) : cell :=
  if decide (gambcolu_arabiensis = Some "arabiensis") then Some "arabiensis"
  else if decide (gambcolu_arabiensis = Some "intermediate") then
    Some "intermediate_arabiensis_gambiae"
  else if decide (gambcolu_arabiensis = Some "gamb_colu") then
    if decide (gambiae_coluzzii = Some "gambiae") then Some "gambiae"
    else if decide (gambiae_coluzzii = Some "coluzzii") then Some "coluzzii"
    else if decide (gambiae_coluzzii = Some "intermediate") then
      Some "intermediate_gambiae_coluzzii"
    else None
  else None.

(** A table whose [species] column follows the rule on every row. *)
Definition species_rule (df : DataFrame) : Prop :=
  exists ga gc sp,
    df_getitem df "species_gambcolu_arabiensis" = Ok ga /\
    df_getitem df "species_gambiae_coluzzii" = Ok gc /\
    df_getitem df "species" = Ok sp /\
    length ga = df_len df /\ length gc = df_len df /\ length sp = df_len df /\
    forall i x y, ga !! i = Some x -> gc !! i = Some y -> sp !! i = Some (species_of x y).

(** * Properties *)

(** ** Association lists and masked assignment *)

Section alist.
Context {V : Type}.
Implicit Types (l : list (string * V)) (k : string) (v : V).

Lemma alist_get_set_eq k v l : alist_get k (alist_set k v l) = Some v.
Proof.
  induction l as [|[k' v'] l IH]; simpl.
  - by rewrite decide_True.
  - destruct (decide (k = k')) as [->|Hne]; simpl.
    + by rewrite decide_True.
    + by rewrite decide_False.
Qed.

Lemma alist_get_set_ne k k' v l :
  k <> k' -> alist_get k' (alist_set k v l) = alist_get k' l.
Proof.
  intros Hne. induction l as [|[k0 v0] l IH]; simpl.
  - by rewrite decide_False.
  - destruct (decide (k = k0)) as [->|Hk]; simpl.
    + by rewrite !decide_False.
    + destruct (decide (k' = k0)); [done | apply IH].
Qed.

Lemma alist_get_elem_of k v l : alist_get k l = Some v -> (k, v) ∈ l.
Proof.
  induction l as [|[k0 v0] l IH]; simpl; [done|].
  destruct (decide (k = k0)) as [->|Hk].
  - intros [= ->]. left.
  - intros H. right. by apply IH.
Qed.

Lemma alist_set_Forall (P : string * V -> Prop) k v l :
  P (k, v) -> Forall P l -> Forall P (alist_set k v l).
Proof.
  intros Hk. induction 1 as [|[k0 v0] l H0 Hl IH]; simpl.
  - by constructor.
  - destruct (decide (k = k0)); constructor; auto.
Qed.

Lemma alist_get_is_Some k l : is_Some (alist_get k l) <-> k ∈ map fst l.
Proof.
  induction l as [|[k0 v0] l IH]; simpl.
  - split; [by intros [? ?] | by intros ?%elem_of_nil].
  - destruct (decide (k = k0)) as [->|Hk].
    + split; [intros _; left | by eexists].
    + rewrite IH. split; [by right | by intros [?|?]%elem_of_cons].
Qed.
End alist.

Lemma masked_assign_length loc v col : length (masked_assign loc v col) = length col.
Proof.
  revert col. induction loc as [|b loc IH]; intros [|x col]; simpl; auto.
Qed.

Lemma masked_assign_lookup (loc : list bool) v (col : list cell) i (b : bool) (c : cell) :
  loc !! i = Some b -> col !! i = Some c ->
  masked_assign loc v col !! i = Some (if b then Some v else c).
Proof.
  revert col i. induction loc as [|b0 loc IH]; intros [|x col] [|i]; simpl; try done.
  - by intros [= ->] [= ->].
  - apply IH.
Qed.

Lemma map_lookup {A B} (f : A -> B) (l : list A) i : map f l !! i = f <$> l !! i.
Proof. revert i. induction l as [|x l IH]; intros [|i]; simpl; auto. Qed.

Lemma col_eq_lookup (values : list cell) s i x :
  values !! i = Some x -> col_eq values s !! i = Some (bool_decide (x = Some s)).
Proof. intros H. unfold col_eq. rewrite map_lookup. by rewrite H. Qed.

Lemma mask_and_lookup (a b : list bool) i x y :
  a !! i = Some x -> b !! i = Some y -> mask_and a b !! i = Some (x && y).
Proof. intros Ha Hb. unfold mask_and. by rewrite lookup_zip_with, Ha, Hb. Qed.

(** ** The species column *)

Lemma df_loc_assign_len df loc c v : df_len (df_loc_assign df loc c v) = df_len df.
Proof. unfold df_loc_assign. by destruct (alist_get c (df_columns df)). Qed.

Lemma df_loc_assign_get_eq df loc c v col :
  df_getitem df c = Ok col ->
  df_getitem (df_loc_assign df loc c v) c = Ok (masked_assign loc v col).
Proof.
  unfold df_getitem, df_loc_assign.
  destruct (alist_get c (df_columns df)) as [col'|] eqn:E; [|done].
  intros [= ->]. simpl. by rewrite alist_get_set_eq.
Qed.

Lemma df_loc_assign_get_ne df loc c c' v :
  c <> c' -> df_getitem (df_loc_assign df loc c v) c' = df_getitem df c'.
Proof.
  intros Hne. unfold df_getitem, df_loc_assign.
  destruct (alist_get c (df_columns df)) as [col'|] eqn:E; [|done].
  simpl. by rewrite alist_get_set_ne.
Qed.

Lemma df_loc_assign_wf df loc c v : df_wf df -> df_wf (df_loc_assign df loc c v).
Proof.
  intros Hwf. unfold df_loc_assign.
  destruct (alist_get c (df_columns df)) as [col|] eqn:E; [|done].
  unfold df_wf, df_setitem, df_len in *. simpl.
  apply alist_set_Forall; [|done]. simpl. rewrite masked_assign_length.
  apply alist_get_elem_of in E.
  rewrite Forall_forall in Hwf. by apply (Hwf _ E).
Qed.

Lemma df_setitem_wf df c values :
  df_wf df -> length values = df_len df -> df_wf (df_setitem df c values).
Proof.
  intros Hwf Hlen. unfold df_wf, df_setitem, df_len in *. simpl.
  by apply alist_set_Forall.
Qed.

Lemma df_setitem_scalar_wf df c v : df_wf df -> df_wf (df_setitem_scalar df c v).
Proof. intros. apply df_setitem_wf; [done | apply length_replicate]. Qed.

Lemma df_getitem_wf df c col : df_wf df -> df_getitem df c = Ok col -> length col = df_len df.
Proof.
  unfold df_getitem. intros Hwf.
  destruct (alist_get c (df_columns df)) as [col'|] eqn:E; [|done].
  intros [= ->]. apply alist_get_elem_of in E.
  unfold df_wf in Hwf. rewrite Forall_forall in Hwf. by apply (Hwf _ E).
Qed.

Lemma df_setitem_get_eq df c values : df_getitem (df_setitem df c values) c = Ok values.
Proof. unfold df_getitem, df_setitem. simpl. by rewrite alist_get_set_eq. Qed.

Lemma df_setitem_get_ne df c c' values :
  c <> c' -> df_getitem (df_setitem df c values) c' = df_getitem df c'.
Proof. intros. unfold df_getitem, df_setitem. simpl. by rewrite alist_get_set_ne. Qed.

Lemma species_of_steps (x y : cell) :
  (if bool_decide (x = Some "gamb_colu") && bool_decide (y = Some "intermediate")
   then Some "intermediate_gambiae_coluzzii"
   else if bool_decide (x = Some "gamb_colu") && bool_decide (y = Some "coluzzii")
   then Some "coluzzii"
   else if bool_decide (x = Some "gamb_colu") && bool_decide (y = Some "gambiae")
   then Some "gambiae"
   else if bool_decide (x = Some "intermediate")
   then Some "intermediate_arabiensis_gambiae"
   else if bool_decide (x = Some "arabiensis") then Some "arabiensis" else None)
  = species_of x y.
Proof.
  unfold species_of.
  repeat case_bool_decide; repeat case_decide; simplify_eq; try done.
Qed.

Lemma add_species_column_spec df df' :
  df_wf df -> add_species_column df = Ok df' ->
  species_rule df' /\ df_wf df' /\ df_len df' = df_len df.
Proof.
  intros Hwf. unfold add_species_column.
  set (d0 := df_setitem df "species" (replicate (df_len df) None)).
  assert (Hwf0 : df_wf d0) by (apply df_setitem_wf; [done | apply length_replicate]).
  destruct (df_getitem d0 "species_gambcolu_arabiensis") as [ga|] eqn:Hga; [|done].
  set (d1 := df_loc_assign d0 _ "species" "arabiensis").
  set (d2 := df_loc_assign d1 _ "species" "intermediate_arabiensis_gambiae").
  destruct (df_getitem d2 "species_gambiae_coluzzii") as [gc|] eqn:Hgc; [|done].
  set (d3 := df_loc_assign d2 _ "species" "gambiae").
  set (d4 := df_loc_assign d3 _ "species" "coluzzii").
  intros [= <-].
  assert (Hlga : length ga = df_len df) by apply (df_getitem_wf d0 _ _ Hwf0 Hga).
  assert (Hgc0 : df_getitem d0 "species_gambiae_coluzzii" = Ok gc).
  { revert Hgc. unfold d2, d1. by rewrite !df_loc_assign_get_ne. }
  assert (Hlgc : length gc = df_len df) by apply (df_getitem_wf d0 _ _ Hwf0 Hgc0).
  split; [|split].
  - exists ga, gc. eexists. split; [|split; [|split]].
    + unfold d4, d3, d2, d1. by rewrite !df_loc_assign_get_ne.
    + unfold d4, d3, d2, d1. by rewrite !df_loc_assign_get_ne.
    + unfold d4, d3, d2, d1.
      repeat (apply df_loc_assign_get_eq). apply df_setitem_get_eq.
    + assert (Hl : df_len (df_loc_assign d4
                  (mask_and (col_eq ga "gamb_colu") (col_eq gc "intermediate"))
                  "species" "intermediate_gambiae_coluzzii") = df_len df).
      { unfold d4, d3, d2, d1. by rewrite !df_loc_assign_len. }
      rewrite Hl, !masked_assign_length, length_replicate.
      split; [done|]. split; [done|]. split; [done|].
      intros i x y Hx Hy.
      assert (Hi : i < df_len df) by (rewrite <- Hlga; by eapply lookup_lt_Some).
      rewrite <- species_of_steps.
      pose proof (col_eq_lookup ga "arabiensis" i x Hx) as Ha.
      pose proof (col_eq_lookup ga "intermediate" i x Hx) as Hi1.
      pose proof (col_eq_lookup ga "gamb_colu" i x Hx) as Hg.
      pose proof (mask_and_lookup _ _ i _ _ Hg (col_eq_lookup gc "gambiae" i y Hy)) as H3.
      pose proof (mask_and_lookup _ _ i _ _ Hg (col_eq_lookup gc "coluzzii" i y Hy)) as H4.
      pose proof (mask_and_lookup _ _ i _ _ Hg (col_eq_lookup gc "intermediate" i y Hy))
        as H5.
      pose proof (lookup_replicate_2 (df_len df) (@None string) i Hi) as H0.
      pose proof (masked_assign_lookup _ "arabiensis" _ i _ _ Ha H0) as S1.
      pose proof (masked_assign_lookup _ "intermediate_arabiensis_gambiae" _ i _ _ Hi1 S1)
        as S2.
      pose proof (masked_assign_lookup _ "gambiae" _ i _ _ H3 S2) as S3.
      pose proof (masked_assign_lookup _ "coluzzii" _ i _ _ H4 S3) as S4.
      exact (masked_assign_lookup _ "intermediate_gambiae_coluzzii" _ i _ _ H5 S4).
  - unfold d4, d3, d2, d1. by repeat apply df_loc_assign_wf.
  - unfold d4, d3, d2, d1. by rewrite !df_loc_assign_len.
Qed.

(** ** Inner join and concatenation of tables *)

Lemma map_fmap {A B} (f : A -> B) (l : list A) : map f l = f <$> l.
Proof. reflexivity. Qed.

Lemma find_all_spec (k : cell) kr j j' :
  j' ∈ find_all k kr j <-> exists m, j' = j + m /\ kr !! m = Some k.
Proof.
  revert j. induction kr as [|y kr IH]; intros j; simpl.
  - split; [by intros ?%elem_of_nil | by intros (m & _ & ?)].
  - assert (Hshift : j' ∈ find_all k kr (S j) <->
                     exists m, j' = j + S m /\ kr !! m = Some k).
    { rewrite IH. split; intros (m & -> & Hm); exists m; split; auto; lia. }
    destruct (decide (k = y)) as [->|Hne].
    + rewrite elem_of_cons, Hshift. split.
      * intros [->|(m & -> & Hm)]; [exists 0 | exists (S m)]; split; auto; lia.
      * intros ([|m] & -> & Hm); [left; lia | right; eauto].
    + rewrite Hshift. split.
      * intros (m & -> & Hm). exists (S m). eauto.
      * intros ([|m] & -> & Hm); [simpl in Hm; congruence | eauto].
Qed.

(** The pairs of an inner join are exactly the pairs of rows with equal keys:
    a row without a partner on the other side is in no pair. *)
Lemma merge_pairs_spec (kl kr : list cell) i j :
  (i, j) ∈ merge_pairs kl kr <-> exists x, kl !! i = Some x /\ kr !! j = Some x.
Proof.
  unfold merge_pairs. rewrite list_elem_of_join. split.
  - intros (l & Hin & Hl). apply elem_of_lookup_imap in Hl as (i0 & x & -> & Hx).
    rewrite map_fmap in Hin. apply list_elem_of_fmap in Hin as (j0 & [= -> ->] & Hj).
    apply find_all_spec in Hj as (m & -> & Hm). exists x. auto.
  - intros (x & Hi & Hj). exists (map (pair i) (find_all x kr 0)). split.
    + rewrite map_fmap. apply list_elem_of_fmap. exists j. split; [done|].
      apply find_all_spec. exists j. auto.
    + apply elem_of_lookup_imap. eauto.
Qed.

Lemma df_merge_spec left right on df :
  df_merge left right on = Ok df ->
  exists kl kr,
    df_getitem left on = Ok kl /\ df_getitem right on = Ok kr /\
    df_index df = seq 0 (length (merge_pairs kl kr)) /\
    df_columns df =
      map (fun nc => (merge_name "_x" on (column_names right) nc.1,
                      take_rows nc.2 (map fst (merge_pairs kl kr))))
          (df_columns left)
      ++ map (fun nc => (merge_name "_y" on (column_names left) nc.1,
                         take_rows nc.2 (map snd (merge_pairs kl kr))))
             (filter (fun nc => nc.1 <> on) (df_columns right)).
Proof.
  unfold df_merge.
  destruct (df_getitem left on) as [kl|] eqn:Hl;
    destruct (df_getitem right on) as [kr|] eqn:Hr; try done.
  intros [= <-]. exists kl, kr. auto.
Qed.

Lemma column_or_nan_getitem df n col :
  df_getitem df n = Ok col -> column_or_nan df n = col.
Proof.
  unfold df_getitem, column_or_nan.
  destruct (alist_get n (df_columns df)); [by intros [= ->] | done].
Qed.

Lemma column_or_nan_length df n : df_wf df -> length (column_or_nan df n) = df_len df.
Proof.
  intros Hwf. unfold column_or_nan.
  destruct (alist_get n (df_columns df)) as [col|] eqn:E.
  - apply (df_getitem_wf df n); [done|]. unfold df_getitem. by rewrite E.
  - apply length_replicate.
Qed.

Lemma concat_columns_acc dfs acc n :
  n ∈ foldl (fun acc df => acc ++ filter (fun n => n ∉ acc) (column_names df)) acc dfs
  <-> n ∈ acc \/ exists df, df ∈ dfs /\ n ∈ column_names df.
Proof.
  revert acc. induction dfs as [|d dfs IH]; intros acc; simpl.
  - split; [auto | intros [?|(df & ?%elem_of_nil & _)]; done].
  - rewrite IH, elem_of_app, list_elem_of_filter. split.
    + intros [[?|[_ ?]]|(df & ? & ?)]; eauto.
      * right. exists d. split; [left | done].
      * right. exists df. split; [by right | done].
    + intros [?|(df & [->|?]%elem_of_cons & Hn)]; eauto.
      destruct (decide (n ∈ acc)); auto.
Qed.

Lemma concat_columns_spec dfs n :
  n ∈ concat_columns dfs <-> exists df, df ∈ dfs /\ n ∈ column_names df.
Proof.
  unfold concat_columns. rewrite concat_columns_acc. split; [|auto].
  by intros [?%elem_of_nil|?].
Qed.

Lemma alist_get_tabulate {V} (f : string -> V) names n :
  n ∈ names -> alist_get n (map (fun n => (n, f n)) names) = Some (f n).
Proof.
  induction names as [|m names IH]; simpl; [by intros ?%elem_of_nil|].
  intros Hin. destruct (decide (n = m)) as [->|Hne]; [done|].
  apply IH. by apply elem_of_cons in Hin as [?|?].
Qed.

Lemma alist_get_tabulate_None {V} (f : string -> V) names n :
  n ∉ names -> alist_get n (map (fun n => (n, f n)) names) = None.
Proof.
  induction names as [|m names IH]; simpl; [done|].
  intros Hin. rewrite not_elem_of_cons in Hin. destruct Hin as [? ?].
  rewrite decide_False by done. auto.
Qed.

Lemma concat_index_length (l : list DataFrame) :
  length (concat (map df_index l)) = sum_list (map df_len l).
Proof.
  induction l as [|x l IH]; simpl; [done|].
  rewrite length_app. by rewrite IH.
Qed.

Lemma pd_concat_spec dfs df :
  pd_concat dfs = Ok df ->
  dfs <> [] /\
  df_index df = concat (map df_index dfs) /\
  df_len df = sum_list (map df_len dfs) /\
  df_columns df =
    map (fun n => (n, concat (map (fun d => column_or_nan d n) dfs)))
        (concat_columns dfs) /\
  forall n, n ∈ concat_columns dfs ->
            df_getitem df n = Ok (concat (map (fun d => column_or_nan d n) dfs)).
Proof.
  unfold pd_concat. destruct dfs as [|d dfs]; [done|]. intros [= <-].
  split; [done|]. split; [done|]. split; [|split].
  - apply (concat_index_length (d :: dfs)).
  - done.
  - intros n Hn. unfold df_getitem. cbn [df_columns].
    by rewrite (alist_get_tabulate
      (fun n => concat (map (fun df => column_or_nan df n) (d :: dfs)))).
Qed.

Lemma concat_column_length (l : list DataFrame) n :
  Forall df_wf l ->
  length (concat (map (fun d => column_or_nan d n) l)) = sum_list (map df_len l).
Proof.
  induction 1 as [|x l Hx Hl IH]; simpl; [done|].
  rewrite length_app, column_or_nan_length by done. by rewrite IH.
Qed.

Lemma pd_concat_wf dfs df : Forall df_wf dfs -> pd_concat dfs = Ok df -> df_wf df.
Proof.
  intros Hwf H. destruct (pd_concat_spec _ _ H) as (_ & _ & Hlen & Hcols & _).
  unfold df_wf. rewrite Hlen, Hcols. apply Forall_forall.
  intros [n col] Hin. rewrite map_fmap in Hin.
  apply list_elem_of_fmap in Hin as (m & [= -> ->] & _). cbn [snd].
  by apply concat_column_length.
Qed.

Lemma reset_index_drop_len df : df_len (reset_index_drop df) = df_len df.
Proof. unfold reset_index_drop, df_len. simpl. apply length_seq. Qed.

Lemma reset_index_drop_get df n : df_getitem (reset_index_drop df) n = df_getitem df n.
Proof. reflexivity. Qed.

Lemma reset_index_drop_wf df : df_wf df -> df_wf (reset_index_drop df).
Proof.
  unfold df_wf. cbn [df_columns reset_index_drop]. intros H.
  eapply Forall_impl; [exact H|]. intros nc Hnc.
  rewrite Hnc. symmetry. apply reset_index_drop_len.
Qed.

(** Concatenation keeps the species rule: the three columns are
    concatenated row for row. *)
Lemma concat_species_rows dfs i x y :
  Forall species_rule dfs ->
  concat (map (fun d => column_or_nan d "species_gambcolu_arabiensis") dfs) !! i = Some x ->
  concat (map (fun d => column_or_nan d "species_gambiae_coluzzii") dfs) !! i = Some y ->
  concat (map (fun d => column_or_nan d "species") dfs) !! i = Some (species_of x y).
Proof.
  intros Hall. revert i. induction Hall as [|d dfs Hd Hall IH]; intros i; simpl.
  - done.
  - destruct Hd as (ga & gc & sp & Hga & Hgc & Hsp & Lga & Lgc & Lsp & Hrow).
    rewrite (column_or_nan_getitem _ _ _ Hga), (column_or_nan_getitem _ _ _ Hgc),
      (column_or_nan_getitem _ _ _ Hsp).
    destruct (decide (i < df_len d)) as [Hlt|Hge].
    + rewrite !lookup_app_l by lia. apply Hrow.
    + rewrite !lookup_app_r by lia. rewrite Lga, Lgc, Lsp. apply IH.
Qed.

Lemma pd_concat_species_rule dfs df :
  Forall species_rule dfs -> Forall df_wf dfs -> pd_concat dfs = Ok df ->
  species_rule (reset_index_drop df).
Proof.
  intros Hall Hwf H.
  pose proof (pd_concat_wf _ _ Hwf H) as Hwfd.
  destruct (pd_concat_spec _ _ H) as (Hne & _ & Hlen & _ & Hcol).
  destruct dfs as [|d dfs]; [done|].
  assert (Hin : forall n col, df_getitem d n = Ok col -> n ∈ concat_columns (d :: dfs)).
  { intros n col Hn. apply concat_columns_spec. exists d. split; [left|].
    unfold column_names. apply alist_get_is_Some. unfold df_getitem in Hn.
    destruct (alist_get n (df_columns d)); [by eexists | done]. }
  pose proof (Forall_inv Hall) as (ga & gc & sp & Hga & Hgc & Hsp & _).
  pose proof (Hcol _ (Hin _ _ Hga)) as Cga.
  pose proof (Hcol _ (Hin _ _ Hgc)) as Cgc.
  pose proof (Hcol _ (Hin _ _ Hsp)) as Csp.
  eexists _, _, _. rewrite !reset_index_drop_get, reset_index_drop_len.
  split; [exact Cga|]. split; [exact Cgc|]. split; [exact Csp|].
  split; [exact (df_getitem_wf df _ _ Hwfd Cga)|].
  split; [exact (df_getitem_wf df _ _ Hwfd Cgc)|].
  split; [exact (df_getitem_wf df _ _ Hwfd Csp)|].
  intros i x y. by apply concat_species_rows.
Qed.

(** ** Boolean selection and concatenation of arrays *)

Lemma count_true_cons b l :
  count_true (b :: l) = (if b then 1 else 0) + count_true l.
Proof.
  unfold count_true. rewrite filter_cons. destruct b; case_decide; done.
Qed.

Lemma count_true_replicate_false n : count_true (replicate n false) = 0.
Proof. induction n; simpl; [done|]. by rewrite count_true_cons. Qed.

Lemma compress_list_nil_r {A} cond : compress_list cond (@nil A) = [].
Proof. by destruct cond. Qed.

Lemma compress_list_length {A} cond (a : list A) :
  length cond <= length a -> length (compress_list cond a) = count_true cond.
Proof.
  revert a. induction cond as [|b cond IH]; intros [|x a]; simpl; try done; try lia.
  intros Hle. rewrite count_true_cons. destruct b; simpl; rewrite IH; lia.
Qed.

Lemma compress_list_zip_with {A B C} (f : A -> B -> C) cond a b :
  compress_list cond (zip_with f a b)
  = zip_with f (compress_list cond a) (compress_list cond b).
Proof.
  revert a b. induction cond as [|c cond IH]; intros [|x a] [|y b]; simpl; try done.
  - by destruct (if c then _ else _).
  - destruct c; simpl; by rewrite IH.
Qed.

Lemma compress_list_replicate {A} cond n (x : A) :
  length cond <= n -> compress_list cond (replicate n x) = replicate (count_true cond) x.
Proof.
  revert n. induction cond as [|c cond IH]; intros [|n]; simpl; try done; try lia.
  intros Hle. rewrite count_true_cons. destruct c; simpl; rewrite IH; auto; lia.
Qed.

Lemma compress_list_Forall {A} (P : A -> Prop) cond a :
  Forall P a -> Forall P (compress_list cond a).
Proof.
  intros H. revert cond. induction H as [|x a Hx Ha IH]; intros [|c cond]; simpl;
    try constructor.
  destruct c; [constructor|]; auto.
Qed.

Lemma hcat_rows_compress cond n ds :
  length cond <= n ->
  compress_list cond (hcat_rows n ds)
  = hcat_rows (count_true cond)
      (map (fun d => mkG (count_true cond) (ga_samples d)
                       (compress_list cond (ga_rows d))) ds).
Proof.
  intros Hle. induction ds as [|d ds IH]; simpl.
  - by apply compress_list_replicate.
  - by rewrite compress_list_zip_with, IH.
Qed.

Lemma da_concatenate_sites ds c :
  da_concatenate ds = Ok c -> Forall (fun d => ga_sites d = ga_sites c) ds.
Proof.
  unfold da_concatenate. destruct ds as [|d ds]; [done|].
  destruct (forallb _ ds) eqn:E; [|done]. intros [= <-]. simpl.
  constructor; [done|]. apply Forall_forall. intros x Hx.
  rewrite forallb_forall in E. apply Nat.eqb_eq, E. by apply list_elem_of_In.
Qed.

(** Selecting positions after concatenating along the sample axis is
    concatenating the arrays selected one by one. *)
Lemma compress_concatenate cond ds c g :
  da_concatenate ds = Ok c -> da_compress cond c = Ok g ->
  exists ms, Forall2 (fun d m => da_compress cond d = Ok m) ds ms /\
             da_concatenate ms = Ok g.
Proof.
  intros Hc Hg. pose proof (da_concatenate_sites _ _ Hc) as Hs.
  unfold da_compress in Hg. destruct (decide (length cond <= ga_sites c)) as [Hle|]; [|done].
  injection Hg as <-.
  exists (map (fun d => mkG (count_true cond) (ga_samples d)
                          (compress_list cond (ga_rows d))) ds).
  split.
  - clear Hc. induction Hs as [|d ds Hd Hs IH]; simpl; constructor; [|done].
    unfold da_compress. by rewrite Hd, decide_True.
  - unfold da_concatenate in *. destruct ds as [|d ds]; [done|].
    destruct (forallb _ ds) eqn:E; [|done]. injection Hc as <-. cbn [ga_sites] in *.
    cbn [map ga_sites]. rewrite (proj2 (forallb_forall _ _)).
    2: { intros x Hx. apply in_map_iff in Hx as (y & <- & _). simpl. apply Nat.eqb_refl. }
    f_equal. f_equal.
    + cbn [ga_samples]. f_equal. rewrite map_map. simpl. done.
    + cbn [ga_rows]. symmetry.
      by apply (hcat_rows_compress cond (ga_sites d) (d :: ds)).
Qed.

Lemma hcat_rows_wf n ds :
  Forall (fun d => ga_sites d = n /\ ga_wf d) ds ->
  length (hcat_rows n ds) = n /\
  Forall (fun r => length r = sum_list (map ga_samples ds)) (hcat_rows n ds).
Proof.
  induction 1 as [|d ds [Hn [Hl Hr]] Hds [IHl IHr]]; simpl.
  - split; [apply length_replicate|]. apply Forall_forall.
    by intros r [-> _]%elem_of_replicate.
  - split.
    + rewrite length_zip_with. lia.
    + apply Forall_forall. intros r Hin.
      apply list_elem_of_lookup in Hin as (i & Hi).
      rewrite lookup_zip_with in Hi.
      destruct (ga_rows d !! i) as [r1|] eqn:E1; [|done].
      destruct (hcat_rows n ds !! i) as [r2|] eqn:E2; [|done].
      simpl in Hi. injection Hi as <-. rewrite length_app.
      rewrite Forall_forall in Hr, IHr.
      rewrite (Hr r1), (IHr r2); eauto using list_elem_of_lookup_2.
Qed.

Lemma da_concatenate_wf ds c : Forall ga_wf ds -> da_concatenate ds = Ok c -> ga_wf c.
Proof.
  intros Hwf Hc. pose proof (da_concatenate_sites _ _ Hc) as Hs.
  assert (Hall : Forall (fun d => ga_sites d = ga_sites c /\ ga_wf d) ds).
  { apply Forall_forall. intros d Hd. rewrite Forall_forall in Hwf, Hs. auto. }
  apply hcat_rows_wf in Hall.
  unfold da_concatenate in Hc. destruct ds as [|d ds]; [done|].
  destruct (forallb _ ds); [|done]. injection Hc as <-. exact Hall.
Qed.

Lemma da_compress_wf cond d g : ga_wf d -> da_compress cond d = Ok g -> ga_wf g.
Proof.
  intros [Hl Hr]. unfold da_compress.
  destruct (decide (length cond <= ga_sites d)); [|done]. intros [= <-].
  split; simpl.
  - apply compress_list_length. lia.
  - by apply compress_list_Forall.
Qed.

Lemma hcat_pair_blocks {A} (rows1 rows2 : list (list A)) n m1 m2 :
  length rows1 = n -> length rows2 = n ->
  Forall (fun r => length r = m1) rows1 -> Forall (fun r => length r = m2) rows2 ->
  map (fun r => take m1 (drop 0 r))
      (zip_with app rows1 (zip_with app rows2 (replicate n []))) = rows1 /\
  map (fun r => take m2 (drop m1 r))
      (zip_with app rows1 (zip_with app rows2 (replicate n []))) = rows2.
Proof.
  revert rows2 n. induction rows1 as [|r1 rows1 IH];
    intros [|r2 rows2] [|n] H1 H2 F1 F2; simpl in *; try done.
  inversion F1 as [|? ? Hr1 F1']; inversion F2 as [|? ? Hr2 F2']; subst.
  destruct (IH rows2 n) as [IH1 IH2]; try done; try lia.
  rewrite IH1, IH2. split; f_equal.
  - by rewrite drop_0, take_app_length.
  - rewrite drop_app_length, app_nil_r. by rewrite firstn_all.
Qed.

(** Two arrays side by side: the sample axis adds up, and each array is the
    block of columns at its place. *)
Lemma da_concatenate_pair g1 g2 g :
  ga_wf g1 -> ga_wf g2 -> da_concatenate [g1; g2] = Ok g ->
  ga_sites g1 = ga_sites g2 /\
  ga_samples g = ga_samples g1 + ga_samples g2 /\
  ga_block 0 (ga_samples g1) g = g1 /\
  ga_block (ga_samples g1) (ga_samples g2) g = g2.
Proof.
  intros [L1 R1] [L2 R2]. unfold da_concatenate. simpl.
  destruct (Nat.eqb (ga_sites g2) (ga_sites g1)) eqn:E; [|done].
  apply Nat.eqb_eq in E. simpl. intros [= <-]. unfold ga_block. simpl.
  split; [done|]. split; [lia|].
  destruct g1 as [s1 m1 rows1], g2 as [s2 m2 rows2]. simpl in *. subst s2.
  destruct (hcat_pair_blocks rows1 rows2 s1 m1 m2) as [-> ->]; auto.
  by rewrite E.
Qed.

(** ** Scatter assignment *)

Lemma normalize_index_nonneg n i :
  (0 <= i < Z.of_nat n)%Z -> normalize_index n i = Ok (Z.to_nat i).
Proof. intros H. unfold normalize_index. by rewrite decide_True. Qed.



Lemma normalize_index_Ok n i k :
  normalize_index n i = Ok k -> k < n /\ (- Z.of_nat n <= i < Z.of_nat n)%Z.
Proof.
  unfold normalize_index. repeat case_decide; intros [= <-]; lia.
Qed.

Lemma scatter_length a idx vals a' : scatter a idx vals = Ok a' -> length a' = length a.
Proof.
  revert a vals. induction idx as [|i idx IH]; intros a [|v vals]; simpl;
    try (by intros [= <-]).
  destruct (normalize_index (length a) i) as [k|] eqn:E; [|done].
  intros H. apply IH in H. by rewrite length_insert in H.
Qed.



(** A position no index points at keeps its value. *)
Lemma scatter_untouched a idx vals a' k :
  scatter a idx vals = Ok a' ->
  Forall (fun i => normalize_index (length a) i <> Ok k) idx ->
  a' !! k = a !! k.
Proof.
  revert a vals. induction idx as [|i idx IH]; intros a [|v vals]; simpl;
    try (by intros [= <-]).
  destruct (normalize_index (length a) i) as [j|] eqn:E; [|done].
  intros H Hall. inversion Hall as [|? ? Hi Hidx]; subst.
  rewrite (IH _ _ H).
  - apply list_lookup_insert_ne. congruence.
  - by rewrite length_insert.
Qed.

Lemma count_true_insert a k (v : bool) :
  a !! k = Some false ->
  count_true (<[k:=v]> a) = count_true a + (if v then 1 else 0).
Proof.
  revert k. induction a as [|b a IH]; intros [|k]; simpl; try done.
  - intros [= ->]. rewrite !count_true_cons. destruct v; lia.
  - intros H. rewrite !count_true_cons, IH by done. lia.
Qed.

(** Distinct non-negative indices onto cleared positions: every value
    written is counted once. *)
Lemma scatter_count a idx vals a' :
  length vals = length idx -> NoDup idx ->
  Forall (fun i => (0 <= i < Z.of_nat (length a))%Z /\ a !! Z.to_nat i = Some false) idx ->
  scatter a idx vals = Ok a' ->
  count_true a' = count_true a + count_true vals.
Proof.
  revert a vals. induction idx as [|i idx IH]; intros a [|v vals] Hlen Hnd Hall; simpl in *;
    try done.
  - intros [= <-]. unfold count_true at 3. simpl. lia.
  - inversion Hall as [|? ? [Hi Hai] Hidx]; subst.
    apply NoDup_cons in Hnd as [Hni Hnd].
    rewrite normalize_index_nonneg by done. intros H.
    apply IH in H; [| lia | done |].
    + rewrite H, count_true_insert, count_true_cons by done. lia.
    + rewrite length_insert. apply Forall_forall. intros j Hj.
      rewrite Forall_forall in Hidx. destruct (Hidx j Hj) as [Hjr Hja].
      split; [done|]. rewrite list_lookup_insert_ne; [done|].
      intros Heq. apply Hni. assert (i = j) as -> by lia. done.
Qed.

Lemma broadcast_to_same {A} n (vals : list A) :
  length vals = n -> broadcast_to n vals = Ok vals.
Proof. intros H. unfold broadcast_to. by rewrite decide_True. Qed.

Lemma broadcast_to_length {A} n (vals vals' : list A) :
  broadcast_to n vals = Ok vals' -> length vals' = n.
Proof.
  unfold broadcast_to. case_decide; [by intros [= <-]|].
  destruct vals as [|v [|? ?]]; try done. intros [= <-]. apply length_replicate.
Qed.

(** ** Reasoning about the monad *)

Lemma bind_inv {A B} (m : M A) (k : A -> M B) s r s' :
  bind m k s = (r, s') ->
  (exists a s1, m s = (Ok a, s1) /\ k a s1 = (r, s')) \/
  (exists e, m s = (Raise e, s') /\ r = Raise e).
Proof.
  unfold bind. destruct (m s) as [[a|e] s1]; intros H; [left | right]; eauto.
  injection H as <- <-. eauto.
Qed.

Lemma bind_Ok_inv {A B} (m : M A) (k : A -> M B) s b s' :
  bind m k s = (Ok b, s') -> exists a s1, m s = (Ok a, s1) /\ k a s1 = (Ok b, s').
Proof. intros [H|(e & _ & ?)]%bind_inv; [done | discriminate]. Qed.

Lemma bind_Ok {A B} (m : M A) (k : A -> M B) s a s1 :
  m s = (Ok a, s1) -> bind m k s = k a s1.
Proof. intros H. unfold bind. by rewrite H. Qed.

Lemma bind_Raise {A B} (m : M A) (k : A -> M B) s e s1 :
  m s = (Raise e, s1) -> bind m k s = (Raise e, s1).
Proof. intros H. unfold bind. by rewrite H. Qed.

Lemma run_fst {A} (m : M A) s r : (m s).1 = r -> m s = (r, (m s).2).
Proof. intros <-. by destruct (m s). Qed.

Lemma lift_inv {A} (x : result A) s r s' : lift x s = (r, s') -> x = r /\ s' = s.
Proof. by intros [= <- <-]. Qed.

Lemma mapM_Ok_length {A B} (f : A -> M B) l s ys s' :
  mapM f l s = (Ok ys, s') -> length ys = length l.
Proof.
  revert s ys. induction l as [|x l IH]; intros s ys; simpl.
  - by intros [= <- <-].
  - intros (y & s1 & Hy & H)%bind_Ok_inv.
    apply bind_Ok_inv in H as (ys' & s2 & Hys & [= <- <-]). simpl. f_equal. eauto.
Qed.

(** A relation between the instance before and after, kept by every step of a
    computation. *)
Definition respects (R : relation Ag3) {A} (m : M A) : Prop :=
  forall s r s', m s = (r, s') -> R s s'.

Section respects.
Context (R : relation Ag3) `{!Reflexive R, !Transitive R}.

Lemma respects_ret {A} (a : A) : respects R (ret a).
Proof. by intros s r s' [= <- <-]. Qed.

Lemma respects_raise {A} e : respects R (@raise A e).
Proof. by intros s r s' [= <- <-]. Qed.

Lemma respects_lift {A} (x : result A) : respects R (lift x).
Proof. by intros s r s' [= <- <-]. Qed.

Lemma respects_get : respects R get.
Proof. by intros s r s' [= <- <-]. Qed.

Lemma respects_bind {A B} (m : M A) (k : A -> M B) :
  respects R m -> (forall a, respects R (k a)) -> respects R (bind m k).
Proof.
  intros Hm Hk s r s' [(a & s1 & Ha & Hb)|(e & He & _)]%bind_inv.
  - etrans; [by eapply Hm | by eapply Hk].
  - by eapply Hm.
Qed.

Lemma respects_mapM {A B} (f : A -> M B) l :
  (forall x, respects R (f x)) -> respects R (mapM f l).
Proof.
  intros Hf. induction l as [|x l IH]; simpl.
  - apply respects_ret.
  - apply respects_bind; [apply Hf|]. intros y.
    apply respects_bind; [apply IH|]. intros ys. apply respects_ret.
Qed.
End respects.

(** ** What a call may change *)

(** [ext s s']: nothing is forgotten.  The store, path and releases are the
    same, every cache entry of [s] is still there, and a resource cached in
    [s] was not opened again. *)
Record ext (s s' : Ag3) : Prop := mkExt {
  ext_fs : _fs s' = _fs s;
  ext_path : _path s' = _path s;
  ext_releases : _releases s' = _releases s;
  ext_sample_sets : _cache_sample_sets s ⊆ _cache_sample_sets s';
  ext_general_metadata : _cache_general_metadata s ⊆ _cache_general_metadata s';
  ext_species_calls : _cache_species_calls s ⊆ _cache_species_calls s';
  ext_site_filters : _cache_site_filters s ⊆ _cache_site_filters s';
  ext_snp_sites : forall o, _cache_snp_sites s = Some o -> _cache_snp_sites s' = Some o;
  ext_snp_genotypes : _cache_snp_genotypes s ⊆ _cache_snp_genotypes s';
  ext_genome : forall o, _cache_genome s = Some o -> _cache_genome s' = Some o;
  ext_quiet : forall r, cached r s -> attempts r (io_log s') = attempts r (io_log s)
}.

Lemma cached_ext r s s' : ext s s' -> cached r s -> cached r s'.
Proof.
  intros [] H. destruct r; simpl in *;
    try (destruct H as [o Ho]; exists o; eapply lookup_weaken; eassumption);
    destruct H as [o Ho]; exists o; auto.
Qed.

#[global] Instance ext_refl : Reflexive ext.
Proof. intros s. by split. Qed.

#[global] Instance ext_trans : Transitive ext.
Proof.
  intros s1 s2 s3 H12 H23. pose proof (fun r => cached_ext r _ _ H12) as Hc.
  destruct H12, H23. split; try congruence; try (etrans; eassumption); auto.
  intros r Hr. rewrite ext_quiet1 by auto. auto.
Qed.

(** A call that touches no cache but the manifests'. *)
Record manifests_only (s s' : Ag3) : Prop := mkMO {
  mo_ext : ext s s';
  mo_general_metadata : _cache_general_metadata s' = _cache_general_metadata s;
  mo_species_calls : _cache_species_calls s' = _cache_species_calls s;
  mo_site_filters : _cache_site_filters s' = _cache_site_filters s;
  mo_snp_sites : _cache_snp_sites s' = _cache_snp_sites s;
  mo_snp_genotypes : _cache_snp_genotypes s' = _cache_snp_genotypes s;
  mo_genome : _cache_genome s' = _cache_genome s;
  mo_quiet : forall r, (forall release, r <> RManifest release) ->
                       attempts r (io_log s') = attempts r (io_log s)
}.

#[global] Instance manifests_only_refl : Reflexive manifests_only.
Proof. intros s. by split. Qed.

#[global] Instance manifests_only_trans : Transitive manifests_only.
Proof.
  intros s1 s2 s3 [] []. split; try congruence; [by etrans|].
  intros r Hr. rewrite mo_quiet1 by done. auto.
Qed.

Lemma attempts_snoc r r' path log :
  attempts r (log ++ [(r', path)]) = attempts r log + (if decide (r' = r) then 1 else 0).
Proof.
  unfold attempts. rewrite filter_app, length_app. f_equal.
  rewrite filter_cons. simpl. by case_decide.
Qed.

(** ** The invariant of the caches *)

Record inv (s : Ag3) : Prop := mkInv {
  inv_sample_sets : forall release o,
    _cache_sample_sets s !! release = Some o ->
    exists df, fs_read_csv (_fs s) (manifest_path (_path s) release) = Some df /\
               oval o = df_setitem_scalar df "release" release;
  inv_species_calls : forall k o,
    fs_wf (_fs s) ->
    _cache_species_calls s !! k = Some o -> species_rule (oval o) /\ df_wf (oval o);
  inv_snp_genotypes : forall ss o,
    fs_wf (_fs s) ->
    _cache_snp_genotypes s !! ss = Some o -> zgroup_wf (oval o)
}.

Definition keeps_inv (s s' : Ag3) : Prop := inv s -> inv s'.

#[global] Instance keeps_inv_refl : Reflexive keeps_inv.
Proof. intros s H. exact H. Qed.

#[global] Instance keeps_inv_trans : Transitive keeps_inv.
Proof. intros s1 s2 s3 H12 H23 H. auto. Qed.

(** What every method guarantees about the instance it leaves. *)
Definition sound_step (s s' : Ag3) : Prop := ext s s' /\ keeps_inv s s'.

#[global] Instance sound_step_refl : Reflexive sound_step.
Proof. intros s. split; reflexivity. Qed.

#[global] Instance sound_step_trans : Transitive sound_step.
Proof. intros s1 s2 s3 [] []. split; by etrans. Qed.

(** ** The steps of the model *)

Lemma logged_ext r path s : ~ cached r s -> ext s (logged r path s).
Proof.
  intros Hr. split; simpl; try done. intros r0 Hr0.
  rewrite attempts_snoc. rewrite decide_False; [lia|]. by intros ->.
Qed.

Lemma allocated_ext s : ext s (allocated s).
Proof. by split. Qed.

Lemma logged_inv r path s : inv s -> inv (logged r path s).
Proof. by intros []. Qed.

Lemma allocated_inv s : inv s -> inv (allocated s).
Proof. by intros []. Qed.

Lemma physical_open_inv {A} r path (content : option A) s res s' :
  physical_open r path content s = (res, s') ->
  (content = None /\ res = Raise (OSError path) /\ s' = logged r path s) \/
  (exists v, content = Some v /\ res = Ok (mkObj (next_oid s) v) /\
             s' = allocated (logged r path s)).
Proof.
  unfold physical_open. destruct content as [v|]; intros [= <- <-]; eauto.
Qed.

Lemma physical_open_ext {A} r path (content : option A) s res s' :
  ~ cached r s -> physical_open r path content s = (res, s') -> ext s s'.
Proof.
  intros Hr [(_ & _ & ->)|(v & _ & _ & ->)]%physical_open_inv.
  - by apply logged_ext.
  - etrans; [by apply logged_ext | apply allocated_ext].
Qed.

(** ** [sample_sets] *)

Lemma sample_sets_cases release s r s' :
  sample_sets release s = (r, s') ->
  ((release ∉ _releases s) /\ r = Raise (ValueError (ReleaseNotAvailable release)) /\
   s' = s) \/
  (release ∈ _releases s /\
   ((exists o, _cache_sample_sets s !! release = Some o /\ r = Ok o /\ s' = s) \/
    (_cache_sample_sets s !! release = None /\
     let path := manifest_path (_path s) release in
     ((fs_read_csv (_fs s) path = None /\ r = Raise (OSError path) /\
       s' = logged (RManifest release) path s) \/
      (exists df,
         fs_read_csv (_fs s) path = Some df /\
         let o := mkObj (next_oid s) (df_setitem_scalar df "release" release) in
         r = Ok o /\
         s' = with_sample_sets release o
                (allocated (logged (RManifest release) path s))))))).
Proof.
  unfold sample_sets, bind, get, raise, ret, store_sample_sets, physical_open.
  cbn beta iota. intros H.
  destruct (decide (release ∉ _releases s)) as [Hn|Hin].
  { injection H as <- <-. left. auto. }
  right. split; [by apply dec_stable|].
  destruct (_cache_sample_sets s !! release) as [o|] eqn:E.
  { injection H as <- <-. left. eauto. }
  right. split; [done|].
  destruct (fs_read_csv (_fs s) (manifest_path (_path s) release)) as [df|] eqn:F.
  - injection H as <- <-. right. exists df. auto.
  - injection H as <- <-. left. auto.
Qed.

Lemma sample_sets_manifests_only release : respects manifests_only (sample_sets release).
Proof.
  intros s r s' H. apply sample_sets_cases in H
    as [(_ & _ & ->)|(_ & [(o & _ & _ & ->)|(E & [(_ & _ & ->)|(df & _ & _ & ->)])])];
    try reflexivity.
  - split; simpl; try done.
    + apply logged_ext. simpl. rewrite E. by intros [? ?].
    + intros r0 Hr0. rewrite attempts_snoc, decide_False; [lia|].
      intros <-. by apply (Hr0 release).
  - split; simpl; try done.
    + split; simpl; try done.
      * by apply insert_subseteq.
      * intros r0 Hr0. rewrite attempts_snoc. rewrite decide_False; [lia|].
        intros <-. simpl in Hr0. rewrite E in Hr0. by destruct Hr0.
    + intros r0 Hr0. rewrite attempts_snoc, decide_False; [lia|].
      intros <-. by apply (Hr0 release).
Qed.

Lemma sample_sets_keeps_inv release : respects keeps_inv (sample_sets release).
Proof.
  intros s r s' H Hinv. apply sample_sets_cases in H
    as [(_ & _ & ->)|(_ & [(o & _ & _ & ->)|(E & [(_ & _ & ->)|(df & F & _ & ->)])])];
    try done.
  - by apply logged_inv.
  - destruct Hinv. split; simpl; try done.
    intros rel o. destruct (decide (release = rel)) as [->|Hne].
    + rewrite lookup_insert_eq. intros [= <-]. simpl. eauto.
    + rewrite lookup_insert_ne by done. auto.
Qed.

Lemma sample_sets_sound release : respects sound_step (sample_sets release).
Proof.
  intros s r s' H. split.
  - by apply (sample_sets_manifests_only release s r s').
  - by apply (sample_sets_keeps_inv release s r s').
Qed.

(** ** Methods built from [sample_sets] *)

Create HintDb respects.

Ltac respects_tac :=
  repeat match goal with
  | |- Reflexive _ => apply _
  | |- Transitive _ => apply _
  | |- respects _ (ret _) => apply respects_ret
  | |- respects _ (raise _) => apply respects_raise
  | |- respects _ (lift _) => apply respects_lift
  | |- respects _ get => apply respects_get
  | |- respects _ (bind _ _) => apply respects_bind
  | |- respects _ (mapM _ _) => apply respects_mapM
  | |- forall _, respects _ _ => intros ?
  | |- respects _ (match ?x with _ => _ end) => destruct x
  | |- respects _ _ => solve [eauto with respects]
  end.

Section manifest_methods.
Context (R : relation Ag3) `{!Reflexive R, !Transitive R}.
Context (Hsample_sets : forall release, respects R (sample_sets release)).

Lemma _lookup_release_loop_respects sample_set releases :
  respects R (_lookup_release_loop sample_set releases).
Proof using All.
  induction releases as [|release rest IH]; simpl; respects_tac.
Qed.

Lemma _lookup_release_respects sample_set : respects R (_lookup_release sample_set).
Proof using All.
  unfold _lookup_release. respects_tac. apply _lookup_release_loop_respects.
Qed.

Lemma v3_wild_respects : respects R v3_wild.
Proof using All. unfold v3_wild. respects_tac. Qed.

Lemma _prep_sample_sets_arg_respects a : respects R (_prep_sample_sets_arg a).
Proof using All.
  unfold _prep_sample_sets_arg. respects_tac. apply v3_wild_respects.
Qed.
End manifest_methods.

Lemma sample_sets_manifests_ext release : respects ext (sample_sets release).
Proof. intros s r s' H. by apply (sample_sets_manifests_only release s r s'). Qed.

Lemma _lookup_release_manifests_only sample_set :
  respects manifests_only (_lookup_release sample_set).
Proof. apply _lookup_release_respects; try apply _; apply sample_sets_manifests_only. Qed.

Lemma _lookup_release_keeps_inv sample_set :
  respects keeps_inv (_lookup_release sample_set).
Proof. apply _lookup_release_respects; try apply _; apply sample_sets_keeps_inv. Qed.

Lemma _lookup_release_ext sample_set : respects ext (_lookup_release sample_set).
Proof.
  intros s r s' H. by apply (_lookup_release_manifests_only sample_set s r s').
Qed.

(** ** Storing into a cache *)

Lemma with_sample_sets_ext k o s :
  _cache_sample_sets s !! k = None -> ext s (with_sample_sets k o s).
Proof. intros H. split; simpl; try done. by apply insert_subseteq. Qed.

Lemma with_general_metadata_ext k o s :
  _cache_general_metadata s !! k = None -> ext s (with_general_metadata k o s).
Proof. intros H. split; simpl; try done. by apply insert_subseteq. Qed.

Lemma with_species_calls_ext k o s :
  _cache_species_calls s !! k = None -> ext s (with_species_calls k o s).
Proof. intros H. split; simpl; try done. by apply insert_subseteq. Qed.

Lemma with_site_filters_ext k o s :
  _cache_site_filters s !! k = None -> ext s (with_site_filters k o s).
Proof. intros H. split; simpl; try done. by apply insert_subseteq. Qed.

Lemma with_snp_sites_ext o s : _cache_snp_sites s = None -> ext s (with_snp_sites o s).
Proof. intros H. split; simpl; try done. by rewrite H. Qed.

Lemma with_snp_genotypes_ext k o s :
  _cache_snp_genotypes s !! k = None -> ext s (with_snp_genotypes k o s).
Proof. intros H. split; simpl; try done. by apply insert_subseteq. Qed.

Lemma with_genome_ext o s : _cache_genome s = None -> ext s (with_genome o s).
Proof. intros H. split; simpl; try done. by rewrite H. Qed.

Lemma with_general_metadata_inv k o s : inv s -> inv (with_general_metadata k o s).
Proof. by intros []. Qed.

Lemma with_site_filters_inv k o s : inv s -> inv (with_site_filters k o s).
Proof. by intros []. Qed.

Lemma with_snp_sites_inv o s : inv s -> inv (with_snp_sites o s).
Proof. by intros []. Qed.

Lemma with_genome_inv o s : inv s -> inv (with_genome o s).
Proof. by intros []. Qed.

Lemma with_species_calls_inv k o s :
  (fs_wf (_fs s) -> species_rule (oval o) /\ df_wf (oval o)) ->
  inv s -> inv (with_species_calls k o s).
Proof.
  intros Ho []. split; simpl; try done.
  intros k' o' Hfs. destruct (decide (k = k')) as [->|Hne].
  - rewrite lookup_insert_eq. intros [= <-]. auto.
  - rewrite lookup_insert_ne by done. eauto.
Qed.

Lemma with_snp_genotypes_inv k o s :
  (fs_wf (_fs s) -> zgroup_wf (oval o)) -> inv s -> inv (with_snp_genotypes k o s).
Proof.
  intros Ho []. split; simpl; try done.
  intros k' o' Hfs. destruct (decide (k = k')) as [->|Hne].
  - rewrite lookup_insert_eq. intros [= <-]. auto.
  - rewrite lookup_insert_ne by done. eauto.
Qed.

(** Opening a resource that is not cached and storing it: the three state
    changes in a row. *)
Lemma open_and_store_ext r path s s1 s2 :
  ~ cached r s -> s1 = allocated (logged r path s) -> ext s1 s2 -> ext s s2.
Proof.
  intros Hr -> H. etrans; [|exact H].
  etrans; [by apply logged_ext | apply allocated_ext].
Qed.

(** ** [_read_general_metadata] *)

Lemma _read_general_metadata_cases ss s r s' :
  _read_general_metadata ss s = (r, s') ->
  (exists o, _cache_general_metadata s !! ss = Some o /\ r = Ok o /\ s' = s) \/
  (_cache_general_metadata s !! ss = None /\
   ((exists e, _lookup_release ss s = (Raise e, s') /\ r = Raise e) \/
    (exists release s1,
       _lookup_release ss s = (Ok release, s1) /\
       let path := general_metadata_path (_path s) release ss in
       ((fs_read_csv (_fs s) path = None /\ r = Raise (OSError path) /\
         s' = logged (RGeneralMetadata ss) path s1) \/
        (exists df,
           fs_read_csv (_fs s) path = Some df /\
           let o := mkObj (next_oid s1)
                      (df_setitem_scalar (df_setitem_scalar df "sample_set" ss)
                         "release" release) in
           r = Ok o /\
           s' = with_general_metadata ss o
                  (allocated (logged (RGeneralMetadata ss) path s1))))))).
Proof.
  unfold _read_general_metadata.
  unfold bind at 1. unfold get. cbn beta iota. intros H.
  destruct (_cache_general_metadata s !! ss) as [o|] eqn:E.
  { injection H as <- <-. left. eauto. }
  right. split; [done|]. unfold bind at 1 in H.
  destruct (_lookup_release ss s) as [[release|e] s1] eqn:L.
  2: { injection H as <- <-. left. eauto. }
  right. exists release, s1. split; [done|].
  unfold bind, physical_open, store_general_metadata, ret in H. cbn beta iota in H.
  destruct (fs_read_csv (_fs s) (general_metadata_path (_path s) release ss))
    as [df|] eqn:F; injection H as <- <-; [right | left]; eauto.
Qed.

Lemma _read_general_metadata_sound ss : respects sound_step (_read_general_metadata ss).
Proof.
  intros s r s' H. apply _read_general_metadata_cases in H
    as [(o & _ & _ & ->)|(E & [(e & L & _)|(rel & s1 & L & [(_ & _ & ->)|(df & _ & _ & ->)])])].
  - reflexivity.
  - split; [exact (_lookup_release_ext ss s _ s' L) |
            exact (_lookup_release_keeps_inv ss s _ s' L)].
  - pose proof (_lookup_release_manifests_only ss s _ s1 L) as [].
    pose proof (_lookup_release_keeps_inv ss s _ s1 L) as Hk. split.
    + etrans; [eassumption|]. apply logged_ext. simpl.
      rewrite mo_general_metadata0, E. by intros [? ?].
    + intros Hi. apply logged_inv. auto.
  - pose proof (_lookup_release_manifests_only ss s _ s1 L) as [].
    pose proof (_lookup_release_keeps_inv ss s _ s1 L) as Hk. split.
    + etrans; [eassumption|].
      eapply (open_and_store_ext (RGeneralMetadata ss)); [|reflexivity|].
      * simpl. rewrite mo_general_metadata0, E. by intros [? ?].
      * apply with_general_metadata_ext. simpl. by rewrite mo_general_metadata0.
    + intros Hi. apply with_general_metadata_inv, allocated_inv, logged_inv. auto.
Qed.

(** ** [_read_species_calls] *)

Lemma _read_species_calls_cases ss analysis method s r s' :
  _read_species_calls ss analysis method s = (r, s') ->
  (exists o, _cache_species_calls s !! (ss, analysis, method) = Some o /\ r = Ok o /\
             s' = s) \/
  (_cache_species_calls s !! (ss, analysis, method) = None /\
   ((exists e, _lookup_release ss s = (Raise e, s') /\ r = Raise e) \/
    (exists release s1,
       _lookup_release ss s = (Ok release, s1) /\
       let path := species_calls_path (_path s) release analysis ss method in
       let res := RSpeciesCalls ss analysis method in
       ((fs_read_csv (_fs s) path = None /\ r = Raise (OSError path) /\
         s' = logged res path s1) \/
        (exists df,
           fs_read_csv (_fs s) path = Some df /\
           ((exists e, add_species_column df = Raise e /\ r = Raise e /\
                       s' = allocated (logged res path s1)) \/
            (exists v, add_species_column df = Ok v /\
                       r = Ok (mkObj (next_oid s1) v) /\
                       s' = with_species_calls (ss, analysis, method)
                              (mkObj (next_oid s1) v)
                              (allocated (logged res path s1))))))))).
Proof.
  unfold _read_species_calls.
  unfold bind at 1. unfold get. cbn beta iota zeta. intros H.
  destruct (_cache_species_calls s !! (ss, analysis, method)) as [o|] eqn:E.
  { injection H as <- <-. left. eauto. }
  right. split; [done|]. unfold bind at 1 in H.
  destruct (_lookup_release ss s) as [[release|e] s1] eqn:L.
  2: { injection H as <- <-. left. eauto. }
  right. exists release, s1. split; [done|].
  unfold bind, physical_open, store_species_calls, ret, lift in H. cbn beta iota in H.
  destruct (fs_read_csv (_fs s) (species_calls_path (_path s) release analysis ss method))
    as [df|] eqn:F.
  2: { injection H as <- <-. left. eauto. }
  right. exists df. split; [done|]. cbn [oval oid] in H.
  destruct (add_species_column df) as [v|e] eqn:A; injection H as <- <-;
    [right | left]; eauto.
Qed.

Lemma _read_species_calls_sound ss analysis method :
  respects sound_step (_read_species_calls ss analysis method).
Proof.
  intros s r s' H. apply _read_species_calls_cases in H
    as [(o & _ & _ & ->)|(E & [(e & L & _)|(rel & s1 & L & H)])].
  - reflexivity.
  - split; [exact (_lookup_release_ext ss s _ s' L) |
            exact (_lookup_release_keeps_inv ss s _ s' L)].
  - pose proof (_lookup_release_manifests_only ss s _ s1 L) as [].
    pose proof (_lookup_release_keeps_inv ss s _ s1 L) as Hk.
    assert (Hnc : ~ cached (RSpeciesCalls ss analysis method) s1).
    { simpl. rewrite mo_species_calls0, E. by intros [? ?]. }
    cbn zeta in H.
    destruct H as [(_ & _ & ->)|(df & F & [(e & _ & _ & ->)|(v & A & _ & ->)])].
    + split; [etrans; [eassumption|]; by apply logged_ext|].
      intros Hi. apply logged_inv. auto.
    + split.
      * etrans; [eassumption|]. etrans; [by apply logged_ext | apply allocated_ext].
      * intros Hi. apply allocated_inv, logged_inv. auto.
    + split.
      * etrans; [eassumption|].
        eapply (open_and_store_ext (RSpeciesCalls ss analysis method)); [done|reflexivity|].
        apply with_species_calls_ext. simpl. by rewrite mo_species_calls0.
      * intros Hi. apply with_species_calls_inv; [|apply allocated_inv, logged_inv; auto].
        cbn [_fs logged allocated oval]. rewrite (ext_fs _ _ mo_ext0). intros [Hcsv _].
        apply add_species_column_spec in A as (Hrule & Hwf & _); [done|by eapply Hcsv].
Qed.

(** ** [_open_snp_genotypes] *)

Lemma _open_snp_genotypes_cases ss s r s' :
  _open_snp_genotypes ss s = (r, s') ->
  (exists o, _cache_snp_genotypes s !! ss = Some o /\ r = Ok o /\ s' = s) \/
  (_cache_snp_genotypes s !! ss = None /\
   ((exists e, _lookup_release ss s = (Raise e, s') /\ r = Raise e) \/
    (exists release s1,
       _lookup_release ss s = (Ok release, s1) /\
       let path := snp_genotypes_path (_path s) release ss in
       ((fs_zarr_genotypes (_fs s) path = None /\ r = Raise (OSError path) /\
         s' = logged (RSnpGenotypes ss) path s1) \/
        (exists root,
           fs_zarr_genotypes (_fs s) path = Some root /\
           r = Ok (mkObj (next_oid s1) root) /\
           s' = with_snp_genotypes ss (mkObj (next_oid s1) root)
                  (allocated (logged (RSnpGenotypes ss) path s1))))))).
Proof.
  unfold _open_snp_genotypes.
  unfold bind at 1. unfold get. cbn beta iota. intros H.
  destruct (_cache_snp_genotypes s !! ss) as [o|] eqn:E.
  { injection H as <- <-. left. eauto. }
  right. split; [done|]. unfold bind at 1 in H.
  destruct (_lookup_release ss s) as [[release|e] s1] eqn:L.
  2: { injection H as <- <-. left. eauto. }
  right. exists release, s1. split; [done|].
  unfold bind, physical_open, store_snp_genotypes, ret in H. cbn beta iota in H.
  destruct (fs_zarr_genotypes (_fs s) (snp_genotypes_path (_path s) release ss))
    as [root|] eqn:F; injection H as <- <-; [right | left]; eauto.
Qed.

Lemma _open_snp_genotypes_sound ss : respects sound_step (_open_snp_genotypes ss).
Proof.
  intros s r s' H. apply _open_snp_genotypes_cases in H
    as [(o & _ & _ & ->)|(E & [(e & L & _)|(rel & s1 & L & H)])].
  - reflexivity.
  - split; [exact (_lookup_release_ext ss s _ s' L) |
            exact (_lookup_release_keeps_inv ss s _ s' L)].
  - pose proof (_lookup_release_manifests_only ss s _ s1 L) as [].
    pose proof (_lookup_release_keeps_inv ss s _ s1 L) as Hk.
    assert (Hnc : ~ cached (RSnpGenotypes ss) s1).
    { simpl. rewrite mo_snp_genotypes0, E. by intros [? ?]. }
    cbn zeta in H. destruct H as [(_ & _ & ->)|(root & F & _ & ->)].
    + split; [etrans; [eassumption|]; by apply logged_ext|].
      intros Hi. apply logged_inv. auto.
    + split.
      * etrans; [eassumption|].
        eapply (open_and_store_ext (RSnpGenotypes ss)); [done|reflexivity|].
        apply with_snp_genotypes_ext. simpl. by rewrite mo_snp_genotypes0.
      * intros Hi. apply with_snp_genotypes_inv; [|apply allocated_inv, logged_inv; auto].
        cbn [_fs logged allocated oval]. rewrite (ext_fs _ _ mo_ext0). intros [_ Hz].
        by eapply Hz.
Qed.

(** ** [_open_site_filters], [_open_snp_sites], [_open_genome] *)

Lemma _open_site_filters_cases mask analysis s r s' :
  _open_site_filters mask analysis s = (r, s') ->
  (exists o, _cache_site_filters s !! (mask, analysis) = Some o /\ r = Ok o /\ s' = s) \/
  (_cache_site_filters s !! (mask, analysis) = None /\
   let path := site_filters_path (_path s) analysis mask in
   ((fs_zarr_filters (_fs s) path = None /\ r = Raise (OSError path) /\
     s' = logged (RSiteFilters mask analysis) path s) \/
    (exists root,
       fs_zarr_filters (_fs s) path = Some root /\
       r = Ok (mkObj (next_oid s) root) /\
       s' = with_site_filters (mask, analysis) (mkObj (next_oid s) root)
              (allocated (logged (RSiteFilters mask analysis) path s))))).
Proof.
  unfold _open_site_filters, bind, get, physical_open, store_site_filters, ret.
  cbn beta iota zeta. intros H.
  destruct (_cache_site_filters s !! (mask, analysis)) as [o|] eqn:E.
  { injection H as <- <-. left. eauto. }
  right. split; [done|].
  destruct (fs_zarr_filters (_fs s) (site_filters_path (_path s) analysis mask))
    as [root|] eqn:F; injection H as <- <-; [right | left]; eauto.
Qed.

Lemma _open_site_filters_sound mask analysis :
  respects sound_step (_open_site_filters mask analysis).
Proof.
  intros s r s' H. apply _open_site_filters_cases in H
    as [(o & _ & _ & ->)|(E & H)]; [reflexivity|].
  assert (Hnc : ~ cached (RSiteFilters mask analysis) s).
  { simpl. rewrite E. by intros [? ?]. }
  cbn zeta in H. destruct H as [(_ & _ & ->)|(root & F & _ & ->)].
  - split; [by apply logged_ext | intros Hi; by apply logged_inv].
  - split.
    + eapply (open_and_store_ext (RSiteFilters mask analysis)); [done|reflexivity|].
      by apply with_site_filters_ext.
    + intros Hi. by apply with_site_filters_inv, allocated_inv, logged_inv.
Qed.

Lemma _open_snp_sites_cases s r s' :
  _open_snp_sites s = (r, s') ->
  (exists o, _cache_snp_sites s = Some o /\ r = Ok o /\ s' = s) \/
  (_cache_snp_sites s = None /\
   let path := snp_sites_path (_path s) in
   ((fs_zarr_sites (_fs s) path = None /\ r = Raise (OSError path) /\
     s' = logged RSnpSites path s) \/
    (exists root,
       fs_zarr_sites (_fs s) path = Some root /\
       r = Ok (mkObj (next_oid s) root) /\
       s' = with_snp_sites (mkObj (next_oid s) root)
              (allocated (logged RSnpSites path s))))).
Proof.
  unfold _open_snp_sites, bind, get, physical_open, store_snp_sites, ret.
  cbn beta iota zeta. intros H.
  destruct (_cache_snp_sites s) as [o|] eqn:E.
  { injection H as <- <-. left. eauto. }
  right. split; [done|].
  destruct (fs_zarr_sites (_fs s) (snp_sites_path (_path s)))
    as [root|] eqn:F; injection H as <- <-; [right | left]; eauto.
Qed.

Lemma _open_snp_sites_sound : respects sound_step _open_snp_sites.
Proof.
  intros s r s' H. apply _open_snp_sites_cases in H
    as [(o & _ & _ & ->)|(E & H)]; [reflexivity|].
  assert (Hnc : ~ cached RSnpSites s).
  { simpl. rewrite E. by intros [? ?]. }
  cbn zeta in H. destruct H as [(_ & _ & ->)|(root & F & _ & ->)].
  - split; [by apply logged_ext | intros Hi; by apply logged_inv].
  - split.
    + eapply (open_and_store_ext RSnpSites); [done|reflexivity|].
      by apply with_snp_sites_ext.
    + intros Hi. by apply with_snp_sites_inv, allocated_inv, logged_inv.
Qed.

Lemma _open_genome_cases s r s' :
  _open_genome s = (r, s') ->
  (exists o, _cache_genome s = Some o /\ r = Ok o /\ s' = s) \/
  (_cache_genome s = None /\
   let path := genome_path (_path s) in
   ((fs_zarr_genome (_fs s) path = None /\ r = Raise (OSError path) /\
     s' = logged RGenome path s) \/
    (exists root,
       fs_zarr_genome (_fs s) path = Some root /\
       r = Ok (mkObj (next_oid s) root) /\
       s' = with_genome (mkObj (next_oid s) root)
              (allocated (logged RGenome path s))))).
Proof.
  unfold _open_genome, bind, get, physical_open, store_genome, ret.
  cbn beta iota zeta. intros H.
  destruct (_cache_genome s) as [o|] eqn:E.
  { injection H as <- <-. left. eauto. }
  right. split; [done|].
  destruct (fs_zarr_genome (_fs s) (genome_path (_path s)))
    as [root|] eqn:F; injection H as <- <-; [right | left]; eauto.
Qed.

Lemma _open_genome_sound : respects sound_step _open_genome.
Proof.
  intros s r s' H. apply _open_genome_cases in H
    as [(o & _ & _ & ->)|(E & H)]; [reflexivity|].
  assert (Hnc : ~ cached RGenome s).
  { simpl. rewrite E. by intros [? ?]. }
  cbn zeta in H. destruct H as [(_ & _ & ->)|(root & F & _ & ->)].
  - split; [by apply logged_ext | intros Hi; by apply logged_inv].
  - split.
    + eapply (open_and_store_ext RGenome); [done|reflexivity|].
      by apply with_genome_ext.
    + intros Hi. by apply with_genome_inv, allocated_inv, logged_inv.
Qed.

(** ** Every method is sound *)

#[local] Hint Resolve sample_sets_sound _read_general_metadata_sound
  _read_species_calls_sound _open_snp_genotypes_sound _open_site_filters_sound
  _open_snp_sites_sound _open_genome_sound : respects.

Lemma _lookup_release_sound sample_set : respects sound_step (_lookup_release sample_set).
Proof. apply _lookup_release_respects; respects_tac. Qed.

Lemma v3_wild_sound : respects sound_step v3_wild.
Proof. apply v3_wild_respects; respects_tac. Qed.

Lemma _prep_sample_sets_arg_sound a : respects sound_step (_prep_sample_sets_arg a).
Proof. apply _prep_sample_sets_arg_respects; respects_tac. Qed.

#[local] Hint Resolve _lookup_release_sound v3_wild_sound _prep_sample_sets_arg_sound
  : respects.

Lemma species_calls_sound depth a analysis method :
  respects sound_step (species_calls depth a analysis method).
Proof.
  revert a. induction depth as [|depth IH]; intros a; simpl; respects_tac.
Qed.

Lemma sample_metadata_sound depth a sc : respects sound_step (sample_metadata depth a sc).
Proof.
  revert a. induction depth as [|depth IH]; intros a; simpl; respects_tac.
Qed.

Lemma site_filters_sound contig mask field analysis :
  respects sound_step (site_filters contig mask field analysis).
Proof. unfold site_filters. respects_tac. Qed.

Lemma snp_sites_field_sound contig field : respects sound_step (snp_sites_field contig field).
Proof. unfold snp_sites_field. respects_tac. Qed.

#[local] Hint Resolve site_filters_sound snp_sites_field_sound : respects.

Lemma snp_sites_sound contig field site_mask sf :
  respects sound_step (snp_sites contig field site_mask sf).
Proof. unfold snp_sites. respects_tac. Qed.

Lemma snp_genotypes_sound depth contig a field site_mask sf :
  respects sound_step (snp_genotypes depth contig a field site_mask sf).
Proof.
  revert a site_mask sf. induction depth as [|depth IH]; intros a site_mask sf; simpl;
    respects_tac.
Qed.

Lemma genome_sequence_sound contig : respects sound_step (genome_sequence contig).
Proof. unfold genome_sequence. respects_tac. Qed.

#[local] Hint Resolve snp_sites_sound genome_sequence_sound : respects.

Lemma is_accessible_sound contig site_mask sf :
  respects sound_step (is_accessible contig site_mask sf).
Proof. unfold is_accessible. respects_tac. Qed.

Lemma run_sound c s : sound_step s (run c s).
Proof.
  destruct c; simpl;
    match goal with
    | |- sound_step ?s (?m ?s).2 =>
        destruct (m s) as [r s'] eqn:E; simpl; revert E
    end.
  - apply sample_sets_sound.
  - apply v3_wild_sound.
  - apply _lookup_release_sound.
  - apply _read_general_metadata_sound.
  - apply _read_species_calls_sound.
  - apply _prep_sample_sets_arg_sound.
  - apply species_calls_sound.
  - apply sample_metadata_sound.
  - apply _open_site_filters_sound.
  - apply site_filters_sound.
  - apply _open_snp_sites_sound.
  - apply snp_sites_sound.
  - apply _open_snp_genotypes_sound.
  - apply snp_genotypes_sound.
  - apply _open_genome_sound.
  - apply genome_sequence_sound.
  - apply is_accessible_sound.
Qed.

Lemma later_sound s s' : later s s' -> sound_step s s'.
Proof.
  induction 1 as [|s' c _ IH]; [reflexivity|].
  etrans; [exact IH | apply run_sound].
Qed.

Lemma later_ext s s' : later s s' -> ext s s'.
Proof. by intros [? _]%later_sound. Qed.

Lemma __init___inv fs path pre s : __init__ fs path pre = Ok s -> inv s.
Proof.
  unfold __init__. destruct (fs_ls fs path) as [listing|]; [|done].
  case_decide; [done|]. intros [= <-]. split; simpl; try done.
Qed.

Lemma reachable_inv s : reachable s -> inv s.
Proof.
  induction 1 as [fs path pre s Hinit|s c _ IH].
  - by eapply __init___inv.
  - by apply (run_sound c s).
Qed.


(** ** Cache hits *)

Lemma sample_sets_hit release s o :
  release ∈ _releases s -> _cache_sample_sets s !! release = Some o ->
  sample_sets release s = (Ok o, s).
Proof.
  intros Hin Hc. unfold sample_sets, bind, get. cbn beta iota.
  rewrite decide_False by (by intros ?). by rewrite Hc.
Qed.

Lemma _read_general_metadata_hit ss s o :
  _cache_general_metadata s !! ss = Some o -> _read_general_metadata ss s = (Ok o, s).
Proof. intros Hc. unfold _read_general_metadata, bind, get. cbn beta iota. by rewrite Hc. Qed.

Lemma _read_species_calls_hit ss analysis method s o :
  _cache_species_calls s !! (ss, analysis, method) = Some o ->
  _read_species_calls ss analysis method s = (Ok o, s).
Proof.
  intros Hc. unfold _read_species_calls, bind, get. cbn beta iota zeta. by rewrite Hc.
Qed.

Lemma _open_snp_genotypes_hit ss s o :
  _cache_snp_genotypes s !! ss = Some o -> _open_snp_genotypes ss s = (Ok o, s).
Proof. intros Hc. unfold _open_snp_genotypes, bind, get. cbn beta iota. by rewrite Hc. Qed.

Lemma _open_site_filters_hit mask analysis s o :
  _cache_site_filters s !! (mask, analysis) = Some o ->
  _open_site_filters mask analysis s = (Ok o, s).
Proof.
  intros Hc. unfold _open_site_filters, bind, get. cbn beta iota zeta. by rewrite Hc.
Qed.

Lemma _open_snp_sites_hit s o : _cache_snp_sites s = Some o -> _open_snp_sites s = (Ok o, s).
Proof. intros Hc. unfold _open_snp_sites, bind, get. cbn beta iota. by rewrite Hc. Qed.

Lemma _open_genome_hit s o : _cache_genome s = Some o -> _open_genome s = (Ok o, s).
Proof. intros Hc. unfold _open_genome, bind, get. cbn beta iota. by rewrite Hc. Qed.

(** A call that returned has its result in the cache. *)
Lemma sample_sets_Ok_cached release s o s1 :
  sample_sets release s = (Ok o, s1) ->
  release ∈ _releases s1 /\ _cache_sample_sets s1 !! release = Some o.
Proof.
  intros H. apply sample_sets_cases in H
    as [(_ & ? & _)|(Hin & [(o' & Hc & [= ->] & ->)|(E & [(_ & ? & _)|(df & _ & [= ->] & ->)])])];
    try done.
  split; [done|]. simpl. by rewrite lookup_insert_eq.
Qed.

Lemma _read_general_metadata_Ok_cached ss s o s1 :
  _read_general_metadata ss s = (Ok o, s1) -> _cache_general_metadata s1 !! ss = Some o.
Proof.
  intros H. apply _read_general_metadata_cases in H
    as [(o' & Hc & [= ->] & ->)|(E & [(e & _ & ?)|(rel & s0 & _ & [(_ & ? & _)|(df & _ & [= ->] & ->)])])];
    try done.
  simpl. by rewrite lookup_insert_eq.
Qed.

Lemma _read_species_calls_Ok_cached ss analysis method s o s1 :
  _read_species_calls ss analysis method s = (Ok o, s1) ->
  _cache_species_calls s1 !! (ss, analysis, method) = Some o.
Proof.
  intros H. apply _read_species_calls_cases in H
    as [(o' & Hc & [= ->] & ->)|(E & [(e & _ & ?)|(rel & s0 & _ & H)])]; try done.
  cbn zeta in H.
  destruct H as [(_ & ? & _)|(df & _ & [(e & _ & ? & _)|(v & _ & [= ->] & ->)])];
    try done.
  simpl. by rewrite lookup_insert_eq.
Qed.

Lemma _open_snp_genotypes_Ok_cached ss s o s1 :
  _open_snp_genotypes ss s = (Ok o, s1) -> _cache_snp_genotypes s1 !! ss = Some o.
Proof.
  intros H. apply _open_snp_genotypes_cases in H
    as [(o' & Hc & [= ->] & ->)|(E & [(e & _ & ?)|(rel & s0 & _ & [(_ & ? & _)|(df & _ & [= ->] & ->)])])];
    try done.
  simpl. by rewrite lookup_insert_eq.
Qed.

Lemma _open_site_filters_Ok_cached mask analysis s o s1 :
  _open_site_filters mask analysis s = (Ok o, s1) ->
  _cache_site_filters s1 !! (mask, analysis) = Some o.
Proof.
  intros H. apply _open_site_filters_cases in H
    as [(o' & Hc & [= ->] & ->)|(E & [(_ & ? & _)|(df & _ & [= ->] & ->)])]; try done.
  simpl. by rewrite lookup_insert_eq.
Qed.

Lemma _open_snp_sites_Ok_cached s o s1 :
  _open_snp_sites s = (Ok o, s1) -> _cache_snp_sites s1 = Some o.
Proof.
  intros H. apply _open_snp_sites_cases in H
    as [(o' & Hc & [= ->] & ->)|(E & [(_ & ? & _)|(df & _ & [= ->] & ->)])]; done.
Qed.

Lemma _open_genome_Ok_cached s o s1 :
  _open_genome s = (Ok o, s1) -> _cache_genome s1 = Some o.
Proof.
  intros H. apply _open_genome_cases in H
    as [(o' & Hc & [= ->] & ->)|(E & [(_ & ? & _)|(df & _ & [= ->] & ->)])]; done.
Qed.

(** A call that returned returns the same object again in every later
    instance, and leaves that instance as it is. *)
Lemma sample_sets_stable release s o s1 s2 :
  sample_sets release s = (Ok o, s1) -> ext s1 s2 -> sample_sets release s2 = (Ok o, s2).
Proof.
  intros [Hin Hc]%sample_sets_Ok_cached Hext. apply sample_sets_hit.
  - by rewrite (ext_releases _ _ Hext).
  - eapply lookup_weaken; [exact Hc | apply Hext].
Qed.

Lemma _read_general_metadata_stable ss s o s1 s2 :
  _read_general_metadata ss s = (Ok o, s1) -> ext s1 s2 ->
  _read_general_metadata ss s2 = (Ok o, s2).
Proof.
  intros Hc Hext. apply _read_general_metadata_Ok_cached in Hc. apply _read_general_metadata_hit.
  eapply lookup_weaken; [exact Hc | apply Hext].
Qed.

Lemma _read_species_calls_stable ss analysis method s o s1 s2 :
  _read_species_calls ss analysis method s = (Ok o, s1) -> ext s1 s2 ->
  _read_species_calls ss analysis method s2 = (Ok o, s2).
Proof.
  intros Hc Hext. apply _read_species_calls_Ok_cached in Hc. apply _read_species_calls_hit.
  eapply lookup_weaken; [exact Hc | apply Hext].
Qed.

Lemma _open_snp_genotypes_stable ss s o s1 s2 :
  _open_snp_genotypes ss s = (Ok o, s1) -> ext s1 s2 ->
  _open_snp_genotypes ss s2 = (Ok o, s2).
Proof.
  intros Hc Hext. apply _open_snp_genotypes_Ok_cached in Hc. apply _open_snp_genotypes_hit.
  eapply lookup_weaken; [exact Hc | apply Hext].
Qed.

Lemma _open_site_filters_stable mask analysis s o s1 s2 :
  _open_site_filters mask analysis s = (Ok o, s1) -> ext s1 s2 ->
  _open_site_filters mask analysis s2 = (Ok o, s2).
Proof.
  intros Hc Hext. apply _open_site_filters_Ok_cached in Hc. apply _open_site_filters_hit.
  eapply lookup_weaken; [exact Hc | apply Hext].
Qed.

Lemma _open_snp_sites_stable s o s1 s2 :
  _open_snp_sites s = (Ok o, s1) -> ext s1 s2 -> _open_snp_sites s2 = (Ok o, s2).
Proof.
  intros Hc Hext. apply _open_snp_sites_Ok_cached in Hc. apply _open_snp_sites_hit.
  by apply (ext_snp_sites _ _ Hext).
Qed.

Lemma _open_genome_stable s o s1 s2 :
  _open_genome s = (Ok o, s1) -> ext s1 s2 -> _open_genome s2 = (Ok o, s2).
Proof.
  intros Hc Hext. apply _open_genome_Ok_cached in Hc. apply _open_genome_hit.
  by apply (ext_genome _ _ Hext).
Qed.

Lemma _lookup_release_loop_stable ss releases s release s1 s2 :
  _lookup_release_loop ss releases s = (Ok release, s1) -> ext s1 s2 ->
  _lookup_release_loop ss releases s2 = (Ok release, s2).
Proof.
  revert s. induction releases as [|rel rest IH]; intros s; simpl; [done|].
  intros (df & sa & Hdf & H)%bind_Ok_inv Hext.
  apply bind_Ok_inv in H as (col & sb & [Hcol ->]%lift_inv & H).
  assert (Hsa : ext sa s1).
  { destruct (decide (Some ss ∈ col)).
    - injection H as _ <-. reflexivity.
    - by apply (_lookup_release_loop_respects ext sample_sets_manifests_ext
                  ss rest sa _ s1 H). }
  rewrite (bind_Ok _ _ _ _ _ (sample_sets_stable _ _ _ _ s2 Hdf (transitivity Hsa Hext))).
  unfold lift at 1. rewrite (bind_Ok _ _ s2 col s2) by (by rewrite Hcol).
  destruct (decide (Some ss ∈ col)).
  - by injection H as <- _.
  - by apply (IH sa).
Qed.

Lemma _lookup_release_stable ss s release s1 s2 :
  _lookup_release ss s = (Ok release, s1) -> ext s1 s2 ->
  _lookup_release ss s2 = (Ok release, s2).
Proof.
  unfold _lookup_release, bind, get. cbn beta iota. intros H Hext.
  assert (Hs : ext s s1).
  { by apply (_lookup_release_loop_respects ext sample_sets_manifests_ext
                ss (_releases s) s _ s1 H). }
  rewrite (ext_releases _ _ Hext), (ext_releases _ _ Hs).
  by eapply _lookup_release_loop_stable.
Qed.

(** ** Physical opens per call *)

Lemma attempts_logged r path s :
  attempts r (io_log (logged r path s)) = S (attempts r (io_log s)).
Proof. simpl. rewrite attempts_snoc, decide_True by done. lia. Qed.

Lemma resource_not_manifest r :
  match r with RManifest _ => False | _ => True end ->
  forall release, r <> RManifest release.
Proof. by destruct r. Qed.

(** The observable behaviour of a memoised open: a call that returned opened
    the resource at most once, and from then on every call returns the very
    same object without opening anything and without changing the instance. *)
Definition opens_once {A} (op : M (obj A)) (r : resource) : Prop :=
  forall s o s1,
    op s = (Ok o, s1) ->
    attempts r (io_log s1) <= S (attempts r (io_log s)) /\
    forall s2, later s1 s2 ->
      op s2 = (Ok o, s2) /\ attempts r (io_log s2) = attempts r (io_log s1).

Lemma sample_sets_opens_once release :
  opens_once (sample_sets release) (RManifest release).
Proof.
  intros s o s1 H. split.
  - apply sample_sets_cases in H
      as [(_ & ? & _)|(_ & [(o' & _ & _ & ->)|(E & [(_ & ? & _)|(df & _ & _ & ->)])])];
      try done; [lia|].
    change (io_log (with_sample_sets _ _ (allocated ?x))) with (io_log x).
    by rewrite attempts_logged.
  - intros s2 Hl%later_ext. split; [by eapply sample_sets_stable|].
    apply (ext_quiet _ _ Hl). simpl. apply sample_sets_Ok_cached in H as [_ ->]. by eexists.
Qed.

Lemma _read_general_metadata_opens_once ss :
  opens_once (_read_general_metadata ss) (RGeneralMetadata ss).
Proof.
  intros s o s1 H. split.
  - apply _read_general_metadata_cases in H
      as [(o' & _ & _ & ->)|(E & [(e & _ & ?)|(rel & s0 & L & [(_ & ? & _)|(df & _ & _ & ->)])])];
      try done; [lia|].
    change (io_log (with_general_metadata _ _ (allocated ?x))) with (io_log x).
    rewrite attempts_logged.
    by rewrite (mo_quiet _ _ (_lookup_release_manifests_only ss s _ s0 L)).
  - intros s2 Hl%later_ext. split; [by eapply _read_general_metadata_stable|].
    apply (ext_quiet _ _ Hl). simpl.
    apply _read_general_metadata_Ok_cached in H as ->. by eexists.
Qed.

Lemma _read_species_calls_opens_once ss analysis method :
  opens_once (_read_species_calls ss analysis method) (RSpeciesCalls ss analysis method).
Proof.
  intros s o s1 H. split.
  - apply _read_species_calls_cases in H
      as [(o' & _ & _ & ->)|(E & [(e & _ & ?)|(rel & s0 & L & H)])]; try done; [lia|].
    cbn zeta in H.
    destruct H as [(_ & ? & _)|(df & _ & [(e & _ & ? & _)|(v & _ & _ & ->)])]; try done.
    change (io_log (with_species_calls _ _ (allocated ?x))) with (io_log x).
    rewrite attempts_logged.
    by rewrite (mo_quiet _ _ (_lookup_release_manifests_only ss s _ s0 L)).
  - intros s2 Hl%later_ext. split; [by eapply _read_species_calls_stable|].
    apply (ext_quiet _ _ Hl). simpl.
    apply _read_species_calls_Ok_cached in H as ->. by eexists.
Qed.

Lemma _open_snp_genotypes_opens_once ss :
  opens_once (_open_snp_genotypes ss) (RSnpGenotypes ss).
Proof.
  intros s o s1 H. split.
  - apply _open_snp_genotypes_cases in H
      as [(o' & _ & _ & ->)|(E & [(e & _ & ?)|(rel & s0 & L & [(_ & ? & _)|(df & _ & _ & ->)])])];
      try done; [lia|].
    change (io_log (with_snp_genotypes _ _ (allocated ?x))) with (io_log x).
    rewrite attempts_logged.
    by rewrite (mo_quiet _ _ (_lookup_release_manifests_only ss s _ s0 L)).
  - intros s2 Hl%later_ext. split; [by eapply _open_snp_genotypes_stable|].
    apply (ext_quiet _ _ Hl). simpl.
    apply _open_snp_genotypes_Ok_cached in H as ->. by eexists.
Qed.

Lemma _open_site_filters_opens_once mask analysis :
  opens_once (_open_site_filters mask analysis) (RSiteFilters mask analysis).
Proof.
  intros s o s1 H. split.
  - apply _open_site_filters_cases in H
      as [(o' & _ & _ & ->)|(E & [(_ & ? & _)|(df & _ & _ & ->)])];
      try done; [lia|].
    change (io_log (with_site_filters _ _ (allocated ?x))) with (io_log x).
    by rewrite attempts_logged.
  - intros s2 Hl%later_ext. split; [by eapply _open_site_filters_stable|].
    apply (ext_quiet _ _ Hl). simpl.
    apply _open_site_filters_Ok_cached in H as ->. by eexists.
Qed.

(** ** Failed opens *)

(** A failed call stores nothing, and after a failed attempt to open the
    resource the next call has to attempt it again. *)
Definition retries_after_failure `{Countable K} {V A}
    (op : M A) (cache : Ag3 -> gmap K V) (k : K) (valid : Ag3 -> Prop) (r : resource)
  : Prop :=
  forall s e s1,
    op s = (Raise e, s1) ->
    cache s1 = cache s /\
    (valid s -> cache s1 !! k = None) /\
    (attempts r (io_log s1) = S (attempts r (io_log s)) ->
     exists s2, op s1 = (Raise e, s2) /\
                attempts r (io_log s2) = S (attempts r (io_log s1)) /\
                cache s2 = cache s).

Lemma sample_sets_retries release :
  retries_after_failure (sample_sets release) _cache_sample_sets release
    (fun s => release ∈ _releases s) (RManifest release).
Proof.
  intros s e s1 H. apply sample_sets_cases in H
    as [(Hn & _ & ->)|(Hin & [(o' & _ & ? & _)|(E & [(F & [= ->] & ->)|(df & _ & ? & _)])])];
    try done.
  - split; [done|]. split; [done|]. lia.
  - split; [done|]. split; [done|]. intros _.
    exists (logged (RManifest release) (manifest_path (_path s) release)
              (logged (RManifest release) (manifest_path (_path s) release) s)).
    split; [|split; [by rewrite attempts_logged | done]].
    unfold sample_sets, bind, get, physical_open. cbn beta iota.
    rewrite decide_False by (by intros ?). simpl. by rewrite E, F.
Qed.

Lemma _read_general_metadata_miss ss s release s0 :
  _cache_general_metadata s !! ss = None ->
  _lookup_release ss s = (Ok release, s0) ->
  _read_general_metadata ss s =
    let path := general_metadata_path (_path s) release ss in
    match fs_read_csv (_fs s) path with
    | None => (Raise (OSError path), logged (RGeneralMetadata ss) path s0)
    | Some df =>
        let o := mkObj (next_oid s0)
                   (df_setitem_scalar (df_setitem_scalar df "sample_set" ss)
                      "release" release) in
        (Ok o, with_general_metadata ss o
                 (allocated (logged (RGeneralMetadata ss) path s0)))
    end.
Proof.
  intros E L. unfold _read_general_metadata. unfold bind at 1. unfold get.
  cbn beta iota. rewrite E. rewrite (bind_Ok _ _ _ _ _ L).
  unfold bind, physical_open, store_general_metadata, ret. cbn beta iota zeta.
  by destruct (fs_read_csv _ _).
Qed.

Lemma _read_species_calls_miss ss analysis method s release s0 :
  _cache_species_calls s !! (ss, analysis, method) = None ->
  _lookup_release ss s = (Ok release, s0) ->
  _read_species_calls ss analysis method s =
    let path := species_calls_path (_path s) release analysis ss method in
    let res := RSpeciesCalls ss analysis method in
    match fs_read_csv (_fs s) path with
    | None => (Raise (OSError path), logged res path s0)
    | Some df =>
        match add_species_column df with
        | Raise e => (Raise e, allocated (logged res path s0))
        | Ok v => (Ok (mkObj (next_oid s0) v),
                   with_species_calls (ss, analysis, method) (mkObj (next_oid s0) v)
                     (allocated (logged res path s0)))
        end
    end.
Proof.
  intros E L. unfold _read_species_calls. unfold bind at 1. unfold get.
  cbn beta iota zeta. rewrite E. rewrite (bind_Ok _ _ _ _ _ L).
  unfold bind, physical_open, store_species_calls, ret, lift. cbn beta iota zeta.
  destruct (fs_read_csv _ _); [|done]. cbn [oval oid].
  by destruct (add_species_column _).
Qed.

Lemma _open_snp_genotypes_miss ss s release s0 :
  _cache_snp_genotypes s !! ss = None ->
  _lookup_release ss s = (Ok release, s0) ->
  _open_snp_genotypes ss s =
    let path := snp_genotypes_path (_path s) release ss in
    match fs_zarr_genotypes (_fs s) path with
    | None => (Raise (OSError path), logged (RSnpGenotypes ss) path s0)
    | Some root =>
        (Ok (mkObj (next_oid s0) root),
         with_snp_genotypes ss (mkObj (next_oid s0) root)
           (allocated (logged (RSnpGenotypes ss) path s0)))
    end.
Proof.
  intros E L. unfold _open_snp_genotypes. unfold bind at 1. unfold get.
  cbn beta iota. rewrite E. rewrite (bind_Ok _ _ _ _ _ L).
  unfold bind, physical_open, store_snp_genotypes, ret. cbn beta iota zeta.
  by destruct (fs_zarr_genotypes _ _).
Qed.

Lemma _read_general_metadata_retries ss :
  retries_after_failure (_read_general_metadata ss) _cache_general_metadata ss
    (fun _ => True) (RGeneralMetadata ss).
Proof.
  intros s e s1 H. apply _read_general_metadata_cases in H
    as [(o' & _ & ? & _)|(E & [(e' & L & [= ->])|(rel & s0 & L & [(F & [= ->] & ->)|(df & _ & ? & _)])])];
    try done.
  - pose proof (_lookup_release_manifests_only ss s _ s1 L) as [].
    rewrite mo_general_metadata0. split; [done|]. split; [done|].
    rewrite mo_quiet0 by done. lia.
  - pose proof (_lookup_release_manifests_only ss s _ s0 L) as [].
    cbn [_cache_general_metadata logged]. rewrite mo_general_metadata0.
    split; [done|]. split; [done|]. intros _.
    set (path := general_metadata_path (_path s) rel ss) in *.
    set (s1 := logged (RGeneralMetadata ss) path s0).
    assert (Hnc : ~ cached (RGeneralMetadata ss) s0).
    { simpl. rewrite mo_general_metadata0, E. by intros [? ?]. }
    pose proof (_lookup_release_stable ss s rel s0 s1 L (logged_ext _ path s0 Hnc)) as L1.
    exists (logged (RGeneralMetadata ss) path s1).
    split; [|split; [by rewrite attempts_logged | simpl; congruence]].
    rewrite (_read_general_metadata_miss ss s1 rel s1); [|simpl; congruence|done].
    cbn [_fs _path logged s1 next_oid]. cbn zeta.
    rewrite (ext_fs _ _ mo_ext0), (ext_path _ _ mo_ext0). fold path. by rewrite F.
Qed.

Lemma _open_snp_genotypes_retries ss :
  retries_after_failure (_open_snp_genotypes ss) _cache_snp_genotypes ss
    (fun _ => True) (RSnpGenotypes ss).
Proof.
  intros s e s1 H. apply _open_snp_genotypes_cases in H
    as [(o' & _ & ? & _)|(E & [(e' & L & [= ->])|(rel & s0 & L & [(F & [= ->] & ->)|(df & _ & ? & _)])])];
    try done.
  - pose proof (_lookup_release_manifests_only ss s _ s1 L) as [].
    rewrite mo_snp_genotypes0. split; [done|]. split; [done|].
    rewrite mo_quiet0 by done. lia.
  - pose proof (_lookup_release_manifests_only ss s _ s0 L) as [].
    cbn [_cache_snp_genotypes logged]. rewrite mo_snp_genotypes0.
    split; [done|]. split; [done|]. intros _.
    set (path := snp_genotypes_path (_path s) rel ss) in *.
    set (s1 := logged (RSnpGenotypes ss) path s0).
    assert (Hnc : ~ cached (RSnpGenotypes ss) s0).
    { simpl. rewrite mo_snp_genotypes0, E. by intros [? ?]. }
    pose proof (_lookup_release_stable ss s rel s0 s1 L (logged_ext _ path s0 Hnc)) as L1.
    exists (logged (RSnpGenotypes ss) path s1).
    split; [|split; [by rewrite attempts_logged | simpl; congruence]].
    rewrite (_open_snp_genotypes_miss ss s1 rel s1); [|simpl; congruence|done].
    cbn [_fs _path logged s1 next_oid]. cbn zeta.
    rewrite (ext_fs _ _ mo_ext0), (ext_path _ _ mo_ext0). fold path. by rewrite F.
Qed.

Lemma _open_site_filters_retries mask analysis :
  retries_after_failure (_open_site_filters mask analysis) _cache_site_filters
    (mask, analysis) (fun _ => True) (RSiteFilters mask analysis).
Proof.
  intros s e s1 H. apply _open_site_filters_cases in H
    as [(o' & _ & ? & _)|(E & [(F & [= ->] & ->)|(df & _ & ? & _)])]; try done.
  split; [done|]. split; [done|]. intros _.
  exists (logged (RSiteFilters mask analysis) (site_filters_path (_path s) analysis mask)
            (logged (RSiteFilters mask analysis)
               (site_filters_path (_path s) analysis mask) s)).
  split; [|split; [by rewrite attempts_logged | done]].
  unfold _open_site_filters, bind, get, physical_open. cbn beta iota zeta.
  simpl. by rewrite E, F.
Qed.

Lemma _read_species_calls_retries ss analysis method :
  retries_after_failure (_read_species_calls ss analysis method) _cache_species_calls
    (ss, analysis, method) (fun _ => True) (RSpeciesCalls ss analysis method).
Proof.
  intros s e s1 H. apply _read_species_calls_cases in H
    as [(o' & _ & ? & _)|(E & [(e' & L & [= ->])|(rel & s0 & L & H)])]; try done.
  - pose proof (_lookup_release_manifests_only ss s _ s1 L) as [].
    rewrite mo_species_calls0. split; [done|]. split; [done|].
    rewrite mo_quiet0 by done. lia.
  - pose proof (_lookup_release_manifests_only ss s _ s0 L) as [].
    cbn zeta in H.
    set (path := species_calls_path (_path s) rel analysis ss method) in *.
    set (res := RSpeciesCalls ss analysis method) in *.
    assert (Hnc : ~ cached res s0).
    { simpl. rewrite mo_species_calls0, E. by intros [? ?]. }
    assert (Hretry : forall sa, sa = logged res path s0 \/ sa = allocated (logged res path s0) ->
              _read_species_calls ss analysis method sa =
                match fs_read_csv (_fs s) path with
                | None => (Raise (OSError path), logged res path sa)
                | Some df =>
                    match add_species_column df with
                    | Raise e => (Raise e, allocated (logged res path sa))
                    | Ok v => (Ok (mkObj (next_oid sa) v),
                               with_species_calls (ss, analysis, method)
                                 (mkObj (next_oid sa) v)
                                 (allocated (logged res path sa)))
                    end
                end).
    { intros sa Hsa.
      assert (Hext : ext s0 sa).
      { destruct Hsa as [-> | ->]; [by apply logged_ext|].
        etrans; [by apply logged_ext | apply allocated_ext]. }
      rewrite (_read_species_calls_miss ss analysis method sa rel sa).
      - cbn zeta.
        rewrite (ext_fs _ _ Hext), (ext_path _ _ Hext),
          (ext_fs _ _ mo_ext0), (ext_path _ _ mo_ext0). done.
      - destruct Hsa as [-> | ->]; simpl; congruence.
      - by eapply _lookup_release_stable. }
    destruct H as [(F & [= ->] & ->)|(df & F & [(e' & A & [= ->] & ->)|(v & _ & ? & _)])];
      try done.
    + cbn [_cache_species_calls logged]. rewrite mo_species_calls0.
      split; [done|]. split; [done|]. intros _. eexists. split; [|split].
      * rewrite Hretry by auto. rewrite F. reflexivity.
      * by rewrite attempts_logged.
      * simpl. congruence.
    + cbn [_cache_species_calls logged allocated]. rewrite mo_species_calls0.
      split; [done|]. split; [done|]. intros _. eexists. split; [|split].
      * rewrite Hretry by auto. rewrite F, A. reflexivity.
      * change (io_log (allocated ?x)) with (io_log x). by rewrite attempts_logged.
      * simpl. congruence.
Qed.

(** * The claims *)

(** C6. For every cache key -- the release for manifests, the sample set for
    general metadata and for genotype stores, (sample set, analysis, method)
    for species calls, (mask, analysis) for site filters -- once a call of
    the open or read operation has returned, every later call with the same
    key on the same instance returns the identical object (same identity,
    same value) and leaves the instance untouched, log of physical opens
    included; the first call attempted at most one physical open of the
    resource and no later method call ever opens it again. *)
Theorem cached_open_identity :
  (forall release, opens_once (sample_sets release) (RManifest release)) /\
  (forall ss, opens_once (_read_general_metadata ss) (RGeneralMetadata ss)) /\
  (forall ss, opens_once (_open_snp_genotypes ss) (RSnpGenotypes ss)) /\
  (forall ss analysis method,
     opens_once (_read_species_calls ss analysis method)
       (RSpeciesCalls ss analysis method)) /\
  (forall mask analysis,
     opens_once (_open_site_filters mask analysis) (RSiteFilters mask analysis)).
Proof.
  split; [exact sample_sets_opens_once|].
  split; [exact _read_general_metadata_opens_once|].
  split; [exact _open_snp_genotypes_opens_once|].
  split; [exact _read_species_calls_opens_once|].
  exact _open_site_filters_opens_once.
Qed.

Lemma cached_open_identity_witness :
  let s := Example.ag3 in
  let s1 := (_open_snp_genotypes "SS1" s).2 in
  let s2 := run (call_snp_genotypes 3 "3R" (PStr "v3") "GT" (Some "gamb_colu")
                   default_analysis) s1 in
  exists o,
    _open_snp_genotypes "SS1" s = (Ok o, s1) /\
    _open_snp_genotypes "SS1" s2 = (Ok o, s2) /\
    attempts (RSnpGenotypes "SS1") (io_log s2) = 1.
Proof.
  intros s s1 s2.
  assert (H : _open_snp_genotypes "SS1" s
              = (Ok (mkObj 1 Example.geno1), s1))
    by (apply run_fst; vm_compute; reflexivity).
  exists (mkObj 1 Example.geno1). split; [exact H|].
  destruct (proj1 (proj2 (proj2 cached_open_identity)) "SS1" s _ s1 H) as [_ Hlater].
  destruct (Hlater s2 (later_step _ _ _ (later_refl _))) as [Hcall Hlog].
  split; [exact Hcall|]. rewrite Hlog. vm_compute. reflexivity.
Defined.

(** C7. For every cache key, a call of the open or read operation that
    raises leaves the cache as it was -- no entry is stored for the key, which
    is still absent -- and when the failed call had attempted the physical
    open, the next call with the same key attempts it again. *)
Theorem failed_open_not_cached :
  (forall release,
     retries_after_failure (sample_sets release) _cache_sample_sets release
       (fun s => release ∈ _releases s) (RManifest release)) /\
  (forall ss,
     retries_after_failure (_read_general_metadata ss) _cache_general_metadata ss
       (fun _ => True) (RGeneralMetadata ss)) /\
  (forall ss,
     retries_after_failure (_open_snp_genotypes ss) _cache_snp_genotypes ss
       (fun _ => True) (RSnpGenotypes ss)) /\
  (forall ss analysis method,
     retries_after_failure (_read_species_calls ss analysis method)
       _cache_species_calls (ss, analysis, method) (fun _ => True)
       (RSpeciesCalls ss analysis method)) /\
  (forall mask analysis,
     retries_after_failure (_open_site_filters mask analysis) _cache_site_filters
       (mask, analysis) (fun _ => True) (RSiteFilters mask analysis)).
Proof.
  split; [exact sample_sets_retries|].
  split; [exact _read_general_metadata_retries|].
  split; [exact _open_snp_genotypes_retries|].
  split; [exact _read_species_calls_retries|].
  exact _open_site_filters_retries.
Qed.

Lemma failed_open_not_cached_witness :
  let s := Example.ag3 in
  let path := "root/v3/metadata/species_calls_20200422/SS1/samples.species_pca.csv" in
  let s1 := (_read_species_calls "SS1" "20200422" "pca" s).2 in
  _read_species_calls "SS1" "20200422" "pca" s = (Raise (OSError path), s1) /\
  _cache_species_calls s1 !! ("SS1", "20200422", "pca") = None /\
  exists s2, _read_species_calls "SS1" "20200422" "pca" s1 = (Raise (OSError path), s2) /\
             attempts (RSpeciesCalls "SS1" "20200422" "pca") (io_log s2) = 2.
Proof.
  intros s path s1.
  assert (H : _read_species_calls "SS1" "20200422" "pca" s = (Raise (OSError path), s1))
    by (apply run_fst; vm_compute; reflexivity).
  split; [exact H|].
  destruct (proj1 (proj2 (proj2 (proj2 failed_open_not_cached)))
              "SS1" "20200422" "pca" s _ s1 H) as (_ & Hnone & Hretry).
  split; [exact (Hnone I)|].
  destruct Hretry as (s2 & Hcall & Hlog & _); [vm_compute; reflexivity|].
  exists s2. split; [exact Hcall|]. rewrite Hlog. vm_compute. reflexivity.
Defined.

(** ** Release validation *)


(** A store whose release directory has no manifest. *)
Module NoManifest.
Definition fs : FileSystem :=
  mkFS (Example.table [("root", ["root/v3"])])
       (fun _ => None) (fun _ => None) (fun _ => None) (fun _ => None)
       (fun _ => None).
Definition ag3 : Ag3 := mkAg3 fs "root" ["v3"] ∅ ∅ ∅ ∅ None ∅ None 0 [].
End NoManifest.




(** ** Species calls *)

Lemma mapM_Forall {A B} (f : A -> M B) (I : Ag3 -> Prop) (P : B -> Prop) l :
  (forall x s y s', I s -> f x s = (Ok y, s') -> P y /\ I s') ->
  forall s ys s', I s -> mapM f l s = (Ok ys, s') -> Forall P ys /\ I s'.
Proof.
  intros Hf. induction l as [|x l IH]; intros s ys s' Hs; simpl.
  - intros [= <- <-]. auto.
  - intros (y & s1 & Hy & H)%bind_Ok_inv.
    apply bind_Ok_inv in H as (ys' & s2 & Hys & [= <- <-]).
    destruct (Hf _ _ _ _ Hs Hy) as [Py Hs1].
    destruct (IH _ _ _ Hs1 Hys) as [Pys Hs2]. auto.
Qed.

(** The instances on which the caches can be trusted: the invariant holds and
    the store is well formed. *)
Definition trusted (s : Ag3) : Prop := inv s /\ fs_wf (_fs s).

Lemma trusted_step s s' : sound_step s s' -> trusted s -> trusted s'.
Proof. intros [Hext Hk] [Hi Hfs]. split; [auto|]. by rewrite (ext_fs _ _ Hext). Qed.

Lemma reachable_trusted s : reachable s -> fs_wf (_fs s) -> trusted s.
Proof. intros Hr Hfs. split; [by apply reachable_inv | done]. Qed.

Lemma _read_species_calls_rule ss analysis method s o s' :
  trusted s -> _read_species_calls ss analysis method s = (Ok o, s') ->
  species_rule (oval o) /\ df_wf (oval o).
Proof.
  intros Ht H.
  destruct (trusted_step _ _ (_read_species_calls_sound _ _ _ _ _ _ H) Ht) as [Hi Hfs].
  apply _read_species_calls_Ok_cached in H. by eapply inv_species_calls.
Qed.

Lemma species_calls_rule depth a analysis method s df s' :
  trusted s -> species_calls depth a analysis method s = (Ok df, s') ->
  (species_rule df /\ df_wf df) /\ trusted s'.
Proof.
  revert a s df s'. induction depth as [|depth IH]; intros a s df s' Ht; simpl; [done|].
  intros (a' & s1 & Hprep & H)%bind_Ok_inv.
  pose proof (trusted_step _ _ (_prep_sample_sets_arg_sound _ _ _ _ Hprep) Ht) as Ht1.
  assert (Hlist : forall l,
    bind (mapM (fun c => species_calls depth c analysis method) l)
      (fun dfs => bind (lift (pd_concat dfs)) (fun df => ret (reset_index_drop df))) s1
      = (Ok df, s') -> (species_rule df /\ df_wf df) /\ trusted s').
  { intros l (dfs & s2 & Hdfs & H')%bind_Ok_inv.
    apply bind_Ok_inv in H' as (d & s3 & [Hd ->]%lift_inv & [= <- <-]).
    destruct (mapM_Forall _ trusted (fun d => species_rule d /\ df_wf d) l
                (fun x s y s' Hs Hy => IH x s y s' Hs Hy) _ _ _ Ht1 Hdfs) as [Hall Ht2].
    apply Forall_and in Hall as [Hrule Hwf]. split; [|done]. split.
    - by eapply pd_concat_species_rule.
    - apply reset_index_drop_wf. by eapply pd_concat_wf. }
  destruct a' as [ss|l|l| |]; try done; [|exact (Hlist l H)..].
  apply bind_Ok_inv in H as (o & s2 & Ho & [= <- <-]). split.
  - by eapply _read_species_calls_rule.
  - by eapply trusted_step; [eapply _read_species_calls_sound|].
Qed.

(** C3. In every table returned by [species_calls] -- for one sample set, a
    release or a list -- the species of each row is the rule's value for the
    row's two raw columns: "arabiensis" gives "arabiensis" whatever the second
    column; "intermediate" gives "intermediate_arabiensis_gambiae";
    "gamb_colu" with "gambiae", "coluzzii" or "intermediate" gives "gambiae",
    "coluzzii" or "intermediate_gambiae_coluzzii"; anything else is missing. *)
Theorem species_calls_derivation depth a analysis method s df s' :
  reachable s -> fs_wf (_fs s) ->
  species_calls depth a analysis method s = (Ok df, s') ->
  exists ga gc sp,
    df_getitem df "species_gambcolu_arabiensis" = Ok ga /\
    df_getitem df "species_gambiae_coluzzii" = Ok gc /\
    df_getitem df "species" = Ok sp /\
    length ga = df_len df /\ length gc = df_len df /\ length sp = df_len df /\
    (forall i x y, ga !! i = Some x -> gc !! i = Some y ->
       sp !! i = Some (species_of x y)) /\
    (forall y, species_of (Some "arabiensis") y = Some "arabiensis") /\
    (forall y, species_of (Some "intermediate") y
               = Some "intermediate_arabiensis_gambiae") /\
    species_of (Some "gamb_colu") (Some "gambiae") = Some "gambiae" /\
    species_of (Some "gamb_colu") (Some "coluzzii") = Some "coluzzii" /\
    species_of (Some "gamb_colu") (Some "intermediate")
      = Some "intermediate_gambiae_coluzzii" /\
    (forall x y,
       x <> Some "arabiensis" -> x <> Some "intermediate" ->
       ~ (x = Some "gamb_colu" /\
          (y = Some "gambiae" \/ y = Some "coluzzii" \/ y = Some "intermediate")) ->
       species_of x y = None).
Proof.
  intros Hr Hfs H.
  destruct (species_calls_rule _ _ _ _ _ _ _ (reachable_trusted _ Hr Hfs) H)
    as [[(ga & gc & sp & Hga & Hgc & Hsp & L1 & L2 & L3 & Hrow) _] _].
  exists ga, gc, sp. do 7 (split; [done|]).
  split; [done|]. split; [done|]. split; [done|]. split; [done|]. split; [done|].
  intros x y H1 H2 H3. unfold species_of.
  repeat case_decide; try done; exfalso; apply H3; auto.
Qed.

Lemma zgroup_singleton_wf contig group field a :
  ga_wf a -> zgroup_wf ({[ contig := {[ group := {[ field := a ]} ]} ]} : zgroup garray).
Proof.
  intros Hwf c g f x. unfold zpath, zgetitem.
  rewrite lookup_singleton. case_decide; [|done].
  rewrite lookup_singleton. case_decide; [|done].
  rewrite lookup_singleton. case_decide; [|done].
  by intros [= <-].
Qed.

Lemma Example_fs_wf : fs_wf Example.fs.
Proof.
  split.
  - intros path df. unfold Example.fs, Example.table. cbn [fs_read_csv alist_get].
    repeat case_decide; intros [= <-]; repeat constructor.
  - intros path root. unfold Example.fs, Example.table. cbn [fs_zarr_genotypes alist_get].
    repeat case_decide; intros [= <-]; apply zgroup_singleton_wf;
      (split; [reflexivity | repeat constructor]).
Qed.

Lemma Example_reachable : reachable Example.ag3.
Proof. apply (reachable_init Example.fs "root" false). reflexivity. Qed.

Lemma species_calls_derivation_witness :
  let r := species_calls 3 (PStr "v3_wild") "20200422" "aim" Example.ag3 in
  exists df, r = (Ok df, r.2) /\
    df_getitem df "species"
      = Ok [Some "coluzzii"; Some "arabiensis"; None;
            Some "intermediate_arabiensis_gambiae"] /\
    species_rule df.
Proof.
  intros r.
  assert (H : exists df, r = (Ok df, r.2)) by (eexists; apply run_fst; vm_compute; reflexivity).
  destruct H as [df H]. exists df. split; [exact H|]. split.
  - assert (Hdf : Ok df = r.1) by (by rewrite H). revert Hdf. vm_compute.
    by intros [= ->].
  - destruct (species_calls_derivation 3 (PStr "v3_wild") "20200422" "aim" Example.ag3
                df r.2 Example_reachable Example_fs_wf H)
      as (ga & gc & sp & Hga & Hgc & Hsp & L1 & L2 & L3 & Hrow & _).
    exists ga, gc, sp. auto 10.
Defined.

(** ** Genotypes *)

Lemma _prep_sample_sets_arg_list l s :
  _prep_sample_sets_arg (PList l) s = (Ok (PList l), s).
Proof. reflexivity. Qed.

Lemma _prep_sample_sets_arg_tuple l s :
  _prep_sample_sets_arg (PTuple l) s = (Ok (PTuple l), s).
Proof. reflexivity. Qed.

(** A string that is neither the "v3_wild" sentinel nor a release
    identifier names a single sample set. *)
Definition single_sample_set (ss : string) : Prop :=
  ss <> "v3_wild" /\ String.prefix "v3" ss = false.

Lemma _prep_sample_sets_arg_single ss s :
  single_sample_set ss -> _prep_sample_sets_arg (PStr ss) s = (Ok (PStr ss), s).
Proof.
  intros [Hw Hp]. unfold _prep_sample_sets_arg, bind.
  rewrite decide_False by done. by rewrite Hp.
Qed.

Lemma _open_snp_genotypes_wf ss s o s' :
  trusted s -> _open_snp_genotypes ss s = (Ok o, s') -> zgroup_wf (oval o).
Proof.
  intros Ht H.
  destruct (trusted_step _ _ (_open_snp_genotypes_sound _ _ _ _ H) Ht) as [Hi Hfs].
  apply _open_snp_genotypes_Ok_cached in H. by eapply inv_snp_genotypes.
Qed.

Lemma snp_genotypes_wf depth contig a field site_mask sf s g s' :
  trusted s -> snp_genotypes depth contig a field site_mask sf s = (Ok g, s') ->
  ga_wf g /\ trusted s'.
Proof.
  revert a site_mask sf s g s'.
  induction depth as [|depth IH]; intros a site_mask sf s g s' Ht; simpl; [done|].
  intros (a' & s1 & Hprep & H)%bind_Ok_inv.
  pose proof (trusted_step _ _ (_prep_sample_sets_arg_sound _ _ _ _ Hprep) Ht) as Ht1.
  apply bind_Ok_inv in H as (d & s2 & Hd & H).
  assert (Hd' : ga_wf d /\ trusted s2).
  { assert (Hlist : forall l,
      bind (mapM (fun c => snp_genotypes depth contig c field None default_analysis) l)
        (fun ds => lift (da_concatenate ds)) s1 = (Ok d, s2) -> ga_wf d /\ trusted s2).
    { intros l (ds & s3 & Hds & [Hc ->]%lift_inv)%bind_Ok_inv.
      destruct (mapM_Forall _ trusted ga_wf l
                  (fun x s y s' Hs Hy => IH x None default_analysis s y s' Hs Hy)
                  _ _ _ Ht1 Hds) as [Hall Ht3].
      split; [by eapply da_concatenate_wf | done]. }
    destruct a' as [ss|l|l| |]; try done; [|exact (Hlist l Hd)..].
    apply bind_Ok_inv in Hd as (o & s3 & Ho & [Hz ->]%lift_inv). split.
    - by eapply (_open_snp_genotypes_wf ss s1 o s3 Ht1 Ho).
    - by eapply trusted_step; [eapply _open_snp_genotypes_sound|]. }
  destruct Hd' as [Hwf Ht2]. destruct site_mask as [mask|].
  - apply bind_Ok_inv in H as (fp & s3 & Hfp & [Hc ->]%lift_inv). split.
    + by eapply da_compress_wf.
    + by eapply trusted_step; [eapply site_filters_sound|].
  - by injection H as <- <-.
Qed.

(** C1. For every contig, field and pair of arguments S1, S2,
    [snp_genotypes(contig, [S1, S2], field)] makes the two calls
    [snp_genotypes(contig, S1, field)] and [snp_genotypes(contig, S2, field)]
    in this order; its sample axis is as long as theirs together, its first
    block of columns is the array of S1 exactly and the block after it is the
    array of S2: the order of the list is kept, nothing is reordered or
    dropped (S1 and S2 may be the same). *)
Theorem snp_genotypes_pair depth contig S1 S2 field sf s g s' :
  reachable s -> fs_wf (_fs s) ->
  snp_genotypes (S depth) contig (PList [S1; S2]) field None sf s = (Ok g, s') ->
  exists g1 s1 g2,
    snp_genotypes depth contig S1 field None default_analysis s = (Ok g1, s1) /\
    snp_genotypes depth contig S2 field None default_analysis s1 = (Ok g2, s') /\
    ga_samples g = ga_samples g1 + ga_samples g2 /\
    ga_block 0 (ga_samples g1) g = g1 /\
    ga_block (ga_samples g1) (ga_samples g2) g = g2.
Proof.
  intros Hr Hfs. pose proof (reachable_trusted _ Hr Hfs) as Ht.
  cbn [snp_genotypes]. rewrite (bind_Ok _ _ _ _ _ (_prep_sample_sets_arg_list _ s)).
  intros (d & s2 & Hd & [= <- <-])%bind_Ok_inv.
  apply bind_Ok_inv in Hd as (ds & s3 & Hds & [Hc ->]%lift_inv).
  cbn [mapM] in Hds.
  apply bind_Ok_inv in Hds as (g1 & s1 & H1 & Hds).
  apply bind_Ok_inv in Hds as (ys & s4 & Hys & [= <- <-]).
  apply bind_Ok_inv in Hys as (g2 & s5 & H2 & Hys).
  apply bind_Ok_inv in Hys as (nil & s6 & [= <- <-] & [= <- <-]).
  destruct (snp_genotypes_wf _ _ _ _ _ _ _ _ _ Ht H1) as [W1 Ht1].
  destruct (snp_genotypes_wf _ _ _ _ _ _ _ _ _ Ht1 H2) as [W2 _].
  destruct (da_concatenate_pair _ _ _ W1 W2 Hc) as (_ & Hs & Hb1 & Hb2).
  exists g1, s1, g2. auto.
Qed.

Lemma snp_genotypes_pair_witness :
  let r := snp_genotypes 2 "3R" (PList [PStr "SS1"; PStr "SS2"]) "GT" None
             default_analysis Example.ag3 in
  exists g, r = (Ok g, r.2) /\ ga_samples g = 3 /\
            ga_block 0 2 g = Example.gt1 /\ ga_block 2 1 g = Example.gt2.
Proof.
  intros r.
  assert (H : exists g, r = (Ok g, r.2)) by (eexists; apply run_fst; vm_compute; reflexivity).
  destruct H as [g H]. exists g. split; [exact H|].
  destruct (snp_genotypes_pair 1 "3R" (PStr "SS1") (PStr "SS2") "GT" default_analysis
              Example.ag3 g r.2 Example_reachable Example_fs_wf H)
    as (g1 & s1 & g2 & H1 & H2 & Hs & Hb1 & Hb2).
  assert (E1 : g1 = Example.gt1).
  { assert (Hg : Ok g1 = Ok Example.gt1); [|by injection Hg].
    transitivity (snp_genotypes 1 "3R" (PStr "SS1") "GT" None default_analysis
                    Example.ag3).1; [by rewrite H1 | vm_compute; reflexivity]. }
  assert (E2 : g2 = Example.gt2).
  { assert (Hg : Ok g2 = Ok Example.gt2); [|by injection Hg].
    transitivity (snp_genotypes 1 "3R" (PStr "SS2") "GT" None default_analysis s1).1;
      [by rewrite H2|].
    assert (Hs1 : s1 = (snp_genotypes 1 "3R" (PStr "SS1") "GT" None default_analysis
                          Example.ag3).2) by (by rewrite H1).
    rewrite Hs1. vm_compute. reflexivity. }
  rewrite E1, E2 in *. auto.
Defined.

(** C9. For every contig, field, list of sample sets and site mask,
    [snp_genotypes] composes each per-sample-set array without a mask,
    concatenates them along the sample axis and applies the boolean selection
    once, to the concatenation; the result is also the concatenation of the
    arrays selected one by one: masking along the position axis and
    concatenation along the sample axis commute. *)
Theorem snp_genotypes_mask_commutes depth contig a l field mask sf s s0 g s' :
  _prep_sample_sets_arg a s = (Ok (PList l), s0) ->
  snp_genotypes (S depth) contig a field (Some mask) sf s = (Ok g, s') ->
  exists ds s1 filter_pass d,
    mapM (fun c => snp_genotypes depth contig c field None default_analysis) l s0
      = (Ok ds, s1) /\
    site_filters contig mask default_field sf s1 = (Ok filter_pass, s') /\
    da_concatenate ds = Ok d /\
    da_compress filter_pass d = Ok g /\
    exists ms, Forall2 (fun d m => da_compress filter_pass d = Ok m) ds ms /\
               da_concatenate ms = Ok g.
Proof.
  intros Hprep. cbn [snp_genotypes]. rewrite (bind_Ok _ _ _ _ _ Hprep).
  intros (d & s2 & Hd & H)%bind_Ok_inv.
  apply bind_Ok_inv in Hd as (ds & s1 & Hds & [Hc ->]%lift_inv).
  apply bind_Ok_inv in H as (fp & s3 & Hfp & [Hg ->]%lift_inv).
  exists ds, s1, fp, d. do 4 (split; [done|]).
  by eapply compress_concatenate.
Qed.

Lemma snp_genotypes_mask_commutes_witness :
  let r := snp_genotypes 3 "3R" (PStr "v3") "GT" (Some "gamb_colu")
             default_analysis Example.ag3 in
  exists g, r = (Ok g, r.2) /\
    exists m1 m2,
      da_compress [true; false; true] Example.gt1 = Ok m1 /\
      da_compress [true; false; true] Example.gt2 = Ok m2 /\
      da_concatenate [m1; m2] = Ok g.
Proof.
  intros r.
  assert (H : exists g, r = (Ok g, r.2)) by (eexists; apply run_fst; vm_compute; reflexivity).
  destruct H as [g H]. exists g. split; [exact H|].
  assert (Hprep : _prep_sample_sets_arg (PStr "v3") Example.ag3
                  = (Ok (PList [PStr "SS1"; PStr "SS2"]),
                     (_prep_sample_sets_arg (PStr "v3") Example.ag3).2))
    by (apply run_fst; vm_compute; reflexivity).
  destruct (snp_genotypes_mask_commutes 2 "3R" (PStr "v3") _ "GT" "gamb_colu"
              default_analysis Example.ag3 _ g r.2 Hprep H)
    as (ds & s1 & fp & d & Hds & Hfp & Hc & Hg & ms & Hms & Hcm).
  assert (Eds : ds = [Example.gt1; Example.gt2]).
  { assert (Hx : Ok ds = Ok [Example.gt1; Example.gt2]); [|by injection Hx].
    etrans; [exact (eq_sym (f_equal fst Hds))|]. vm_compute. reflexivity. }
  assert (Efp : fp = [true; false; true]).
  { assert (Hx : Ok fp = Ok [true; false; true]); [|by injection Hx].
    etrans; [exact (eq_sym (f_equal fst Hfp))|].
    assert (Hs1 : s1 = (mapM (fun c => snp_genotypes 2 "3R" c "GT" None default_analysis)
                          [PStr "SS1"; PStr "SS2"]
                          (_prep_sample_sets_arg (PStr "v3") Example.ag3).2).2)
      by (by rewrite Hds).
    rewrite Hs1. vm_compute. reflexivity. }
  subst ds fp. inversion Hms as [|? m1 ? ms' Hm1 Hms']; subst.
  inversion Hms' as [|? m2 ? ms'' Hm2 Hms'']; subst. inversion Hms''; subst.
  exists m1, m2. auto.
Defined.

(** ** Sites *)

(** The calls of line 350: a field and no mask. *)
Lemma snp_sites_unmasked contig field sf s :
  snp_sites contig (Some field) None sf s
  = match snp_sites_field contig field s with
    | (Ok a, s') => (Ok (Single a), s')
    | (Raise e, s') => (Raise e, s')
    end.
Proof.
  unfold snp_sites, bind, ret. by destruct (snp_sites_field contig field s) as [[a|e] s'].
Qed.

Lemma da_compress1_length cond a a' :
  da_compress1 cond a = Ok a' -> sa_len a' = count_true cond.
Proof.
  unfold da_compress1. case_decide as Hle; [|done]. intros [= <-].
  destruct a; simpl in *; by apply compress_list_length.
Qed.

(** C5. For every contig, [snp_sites] called with no field and a site mask
    reads POS, REF and ALT unmasked, evaluates the filter array of the mask
    once, and returns the three arrays each selected by that one array along
    the position axis: each has as many entries as the filter array has True
    values, so the three lengths are equal. *)
Theorem snp_sites_masked contig mask sf s r s' :
  snp_sites contig None (Some mask) sf s = (Ok r, s') ->
  exists pos ref alt s1 s2 s3 filter_pass pos' ref' alt',
    snp_sites contig (Some "POS") None default_analysis s = (Ok (Single pos), s1) /\
    snp_sites contig (Some "REF") None default_analysis s1 = (Ok (Single ref), s2) /\
    snp_sites contig (Some "ALT") None default_analysis s2 = (Ok (Single alt), s3) /\
    site_filters contig mask default_field sf s3 = (Ok filter_pass, s') /\
    r = Tuple [pos'; ref'; alt'] /\
    da_compress1 filter_pass pos = Ok pos' /\
    da_compress1 filter_pass ref = Ok ref' /\
    da_compress1 filter_pass alt = Ok alt' /\
    sa_len pos' = count_true filter_pass /\
    sa_len ref' = count_true filter_pass /\
    sa_len alt' = count_true filter_pass.
Proof.
  unfold snp_sites at 1. intros (r0 & s3 & Hr0 & H)%bind_Ok_inv.
  apply bind_Ok_inv in Hr0 as (l & s3' & Hl & [= <- <-]).
  cbn [mapM] in Hl.
  apply bind_Ok_inv in Hl as (pos & s1 & Hpos & Hl).
  apply bind_Ok_inv in Hl as (l1 & s1' & Hl & [= <- <-]).
  apply bind_Ok_inv in Hl as (ref & s2 & Href & Hl).
  apply bind_Ok_inv in Hl as (l2 & s2' & Hl & [= <- <-]).
  apply bind_Ok_inv in Hl as (alt & s3'' & Halt & Hl).
  apply bind_Ok_inv in Hl as (l3 & s4 & [= <- <-] & [= <- <-]).
  apply bind_Ok_inv in H as (fp & s5 & Hfp & H).
  apply bind_Ok_inv in H as (l' & s6 & Hl' & [= <- <-]).
  cbn [mapM] in Hl'.
  apply bind_Ok_inv in Hl' as (pos' & ? & [Hp ->]%lift_inv & Hl').
  apply bind_Ok_inv in Hl' as (l1 & ? & Hl' & [= <- <-]).
  apply bind_Ok_inv in Hl' as (ref' & ? & [Hr ->]%lift_inv & Hl').
  apply bind_Ok_inv in Hl' as (l2 & ? & Hl' & [= <- <-]).
  apply bind_Ok_inv in Hl' as (alt' & ? & [Ha ->]%lift_inv & Hl').
  apply bind_Ok_inv in Hl' as (l3 & ? & [= <- <-] & [= <- <-]).
  exists pos, ref, alt, s1, s2, s3'', fp, pos', ref', alt'.
  rewrite !snp_sites_unmasked, Hpos, Href, Halt.
  do 8 (split; [done|]).
  split; [|split]; by eapply da_compress1_length.
Qed.

Lemma snp_sites_masked_witness :
  let r := snp_sites "3R" None (Some "gamb_colu") default_analysis Example.ag3 in
  r.1 = Ok (Tuple [IntArray [2; 5]%Z; BytesArray ["A"; "G"];
                   BytesArray ["CGT"; "ACT"]]) /\
  exists pos' ref' alt',
    r.1 = Ok (Tuple [pos'; ref'; alt']) /\
    sa_len pos' = sa_len ref' /\ sa_len ref' = sa_len alt'.
Proof.
  intros r. split; [vm_compute; reflexivity|].
  assert (H : exists x, r = (Ok x, r.2)) by (eexists; apply run_fst; vm_compute; reflexivity).
  destruct H as [x H].
  destruct (snp_sites_masked "3R" "gamb_colu" default_analysis Example.ag3 x r.2 H)
    as (pos & ref & alt & s1 & s2 & s3 & fp & pos' & ref' & alt'
        & _ & _ & _ & _ & -> & _ & _ & _ & L1 & L2 & L3).
  exists pos', ref', alt'. rewrite H. simpl. split; [done|]. split; congruence.
Defined.

(** ** Sample metadata *)

Lemma find_all_NoDup (k : cell) kr j : NoDup (find_all k kr j).
Proof.
  revert j. induction kr as [|y kr IH]; intros j; simpl; [constructor|].
  destruct (decide (k = y)); [|apply IH].
  constructor; [|apply IH]. intros (m & Hm & _)%find_all_spec. lia.
Qed.

Lemma merge_pairs_from_NoDup (kl kr : list cell) n :
  NoDup (mjoin (imap (fun i k => map (pair (n + i)) (find_all k kr 0)) kl)) /\
  forall p, p ∈ mjoin (imap (fun i k => map (pair (n + i)) (find_all k kr 0)) kl) ->
            n <= p.1.
Proof.
  revert n. induction kl as [|k kl IH]; intros n; simpl.
  - split; [constructor | by intros p ?%elem_of_nil].
  - destruct (IH (S n)) as [IHnd IHge].
    assert (Heq : imap ((fun i k => map (pair (n + i)) (find_all k kr 0)) ∘ S) kl
                  = imap (fun i k => map (pair (S n + i)) (find_all k kr 0)) kl).
    { apply imap_ext. intros i x _. simpl. by replace (n + S i) with (S (n + i)) by lia. }
    rewrite Heq. rewrite Nat.add_0_r. split.
    + apply NoDup_app. split; [|split; [|done]].
      * rewrite map_fmap. apply (NoDup_fmap_2 _). apply find_all_NoDup.
      * intros p Hp Hq. apply IHge in Hq. rewrite map_fmap in Hp.
        apply list_elem_of_fmap in Hp as (j & -> & _). simpl in Hq. lia.
    + intros p [Hp|Hp]%elem_of_app.
      * rewrite map_fmap in Hp. apply list_elem_of_fmap in Hp as (j & -> & _). simpl. lia.
      * apply IHge in Hp. lia.
Qed.

(** Each pair of rows with equal keys is joined once. *)
Lemma merge_pairs_NoDup (kl kr : list cell) : NoDup (merge_pairs kl kr).
Proof. exact (proj1 (merge_pairs_from_NoDup kl kr 0)). Qed.

Lemma column_or_nan_alt d n :
  column_or_nan d n
  = match df_getitem d n with
    | Ok col => col
    | Raise _ => replicate (df_len d) None
    end.
Proof.
  unfold column_or_nan, df_getitem. by destruct (alist_get n (df_columns d)).
Qed.

Lemma Forall2_column_or_nan dfs cols n :
  Forall2 (fun d col => df_getitem d n = Ok col) dfs cols ->
  map (fun d => column_or_nan d n) dfs = cols.
Proof.
  induction 1 as [|d col dfs cols Hd _ IH]; simpl; [done|].
  by rewrite (column_or_nan_getitem _ _ _ Hd), IH.
Qed.

Lemma pd_concat_column_names dfs df :
  pd_concat dfs = Ok df -> column_names df = concat_columns dfs.
Proof.
  intros (_ & _ & _ & Hcols & _)%pd_concat_spec.
  unfold column_names. rewrite Hcols, map_map. simpl. apply map_id.
Qed.

(** C2. For a single sample-set identifier, [sample_metadata] without a
    species-call specification is the general metadata table, and with a
    specification (analysis, method) it is the inner join of the general
    metadata with the species-call table on [sample_id]: one row for each pair
    of a general row and a species row with the same key, so a row without a
    partner on the other side is dropped.  For a list, or a release resolved
    to a list, it is the concatenation of the per-sample-set results in the
    order of the list, with the index renumbered from 0: its columns are the
    columns of the per-sample-set tables, and each column is the tables'
    columns of that name one after the other (missing values for the rows of
    a table without the column). *)
Theorem sample_metadata_assembly :
  (forall depth ss s,
     single_sample_set ss ->
     sample_metadata (S depth) (PStr ss) None s
     = match _read_general_metadata ss s with
       | (Ok general, s') => (Ok (oval general), s')
       | (Raise e, s') => (Raise e, s')
       end) /\
  (forall depth ss analysis method s df s',
     single_sample_set ss ->
     sample_metadata (S depth) (PStr ss) (Some (analysis, method)) s = (Ok df, s') ->
     exists general s1 species kl kr pairs,
       _read_general_metadata ss s = (Ok general, s1) /\
       _read_species_calls ss analysis method s1 = (Ok species, s') /\
       df_getitem (oval general) "sample_id" = Ok kl /\
       df_getitem (oval species) "sample_id" = Ok kr /\
       NoDup pairs /\
       (forall i j, (i, j) ∈ pairs <-> exists x, kl !! i = Some x /\ kr !! j = Some x) /\
       (forall i x, kl !! i = Some x -> x ∉ kr -> forall j, (i, j) ∉ pairs) /\
       (forall j x, kr !! j = Some x -> x ∉ kl -> forall i, (i, j) ∉ pairs) /\
       df_index df = seq 0 (length pairs) /\
       df_columns df =
         map (fun nc => (merge_name "_x" "sample_id" (column_names (oval species)) nc.1,
                         take_rows nc.2 (map fst pairs)))
             (df_columns (oval general))
         ++ map (fun nc => (merge_name "_y" "sample_id" (column_names (oval general)) nc.1,
                            take_rows nc.2 (map snd pairs)))
                (filter (fun nc => nc.1 <> "sample_id") (df_columns (oval species)))) /\
  (forall depth a l sc s s0 df s',
     _prep_sample_sets_arg a s = (Ok (PList l), s0) ->
     sample_metadata (S depth) a sc s = (Ok df, s') ->
     exists dfs,
       mapM (fun c => sample_metadata depth c sc) l s0 = (Ok dfs, s') /\
       length dfs = length l /\
       df_len df = sum_list (map df_len dfs) /\
       df_index df = seq 0 (df_len df) /\
       column_names df = concat_columns dfs /\
       (forall n, n ∈ column_names df <-> exists d, d ∈ dfs /\ n ∈ column_names d) /\
       (forall n, n ∈ column_names df ->
          df_getitem df n =
            Ok (concat (map (fun d => match df_getitem d n with
                                      | Ok col => col
                                      | Raise _ => replicate (df_len d) None
                                      end) dfs))) /\
       (forall n cols,
          Forall2 (fun d col => df_getitem d n = Ok col) dfs cols ->
          df_getitem df n = Ok (concat cols))).
Proof.
  split; [|split].
  - intros depth ss s Hss. cbn [sample_metadata].
    rewrite (bind_Ok _ _ _ _ _ (_prep_sample_sets_arg_single _ s Hss)).
    unfold bind, ret. by destruct (_read_general_metadata ss s) as [[o|e] s'].
  - intros depth ss analysis method s df s' Hss. cbn [sample_metadata].
    rewrite (bind_Ok _ _ _ _ _ (_prep_sample_sets_arg_single _ s Hss)).
    intros (general & s1 & Hg & H)%bind_Ok_inv.
    apply bind_Ok_inv in H as (species & s2 & Hsp & [Hm ->]%lift_inv).
    apply df_merge_spec in Hm as (kl & kr & Hkl & Hkr & Hidx & Hcols).
    exists general, s1, species, kl, kr, (merge_pairs kl kr).
    do 4 (split; [done|]). split; [apply merge_pairs_NoDup|].
    split; [apply merge_pairs_spec|]. split; [|split; [|done]].
    + intros i x Hi Hx j (y & Hy & Hj)%merge_pairs_spec.
      apply Hx. apply list_elem_of_lookup. exists j. congruence.
    + intros j x Hj Hx i (y & Hi & Hy)%merge_pairs_spec.
      apply Hx. apply list_elem_of_lookup. exists i. congruence.
  - intros depth a l sc s s0 df s' Hprep. cbn [sample_metadata].
    rewrite (bind_Ok _ _ _ _ _ Hprep).
    intros (dfs & s1 & Hdfs & H)%bind_Ok_inv.
    apply bind_Ok_inv in H as (d & s2 & [Hd ->]%lift_inv & [= <- <-]).
    destruct (pd_concat_spec _ _ Hd) as (Hne & _ & Hlen & _ & Hget).
    pose proof (pd_concat_column_names _ _ Hd) as Hnames.
    exists dfs. split; [done|]. split; [by eapply mapM_Ok_length|].
    rewrite reset_index_drop_len. split; [done|]. split; [done|].
    change (column_names (reset_index_drop d)) with (column_names d).
    split; [done|]. split; [|split].
    + intros n. rewrite Hnames. apply concat_columns_spec.
    + intros n Hn. rewrite Hnames in Hn.
      rewrite reset_index_drop_get, (Hget n Hn). do 2 f_equal.
      apply map_ext. intros x. apply column_or_nan_alt.
    + intros n cols Hall.
      assert (Hn : n ∈ concat_columns dfs).
      { apply concat_columns_spec. destruct Hall as [|x col dfs' cols' Hx _]; [done|].
        exists x. split; [left|]. apply alist_get_is_Some. unfold df_getitem in Hx.
        destruct (alist_get n (df_columns x)); [by eexists | done]. }
      rewrite reset_index_drop_get, (Hget n Hn).
      by rewrite (Forall2_column_or_nan _ _ _ Hall).
Qed.

Lemma sample_metadata_assembly_witness :
  let general := sample_metadata 1 (PStr "SS1") None Example.ag3 in
  let joined := sample_metadata 1 (PStr "SS1") (Some ("20200422", "aim")) Example.ag3 in
  let release := sample_metadata 2 (PStr "v3") (Some ("20200422", "aim")) Example.ag3 in
  general.1 = (match _read_general_metadata "SS1" Example.ag3 with
               | (Ok g, _) => Ok (oval g)
               | (Raise e, _) => Raise e
               end) /\
  (exists df, joined = (Ok df, joined.2) /\
     df_getitem df "sample_id" = Ok [Some "a1"; Some "a3"] /\
     df_index df = [0; 1]) /\
  (exists df, release = (Ok df, release.2) /\
     df_index df = [0; 1; 2] /\
     df_getitem df "sample_id" = Ok [Some "a1"; Some "a3"; Some "b1"] /\
     df_getitem df "sample_set" = Ok [Some "SS1"; Some "SS1"; Some "SS2"]).
Proof.
  intros general joined release.
  assert (Hss : single_sample_set "SS1") by (split; [discriminate | reflexivity]).
  split; [|split].
  - unfold general.
    rewrite (proj1 sample_metadata_assembly 0 "SS1" Example.ag3 Hss).
    by destruct (_read_general_metadata "SS1" Example.ag3) as [[g|e] s'].
  - assert (H : exists df, joined = (Ok df, joined.2))
      by (eexists; apply run_fst; vm_compute; reflexivity).
    destruct H as [df H]. exists df. split; [exact H|].
    destruct (proj1 (proj2 sample_metadata_assembly) 0 "SS1" "20200422" "aim"
                Example.ag3 df joined.2 Hss H)
      as (g & s1 & sp & kl & kr & pairs & _ & _ & _ & _ & _ & _ & _ & _ & Hidx & _).
    assert (Hdf : Ok df = joined.1) by (by rewrite H).
    revert Hdf. vm_compute. intros [= ->]. split; reflexivity.
  - assert (H : exists df, release = (Ok df, release.2))
      by (eexists; apply run_fst; vm_compute; reflexivity).
    destruct H as [df H]. exists df. split; [exact H|].
    pose proof (run_fst (_prep_sample_sets_arg (PStr "v3")) Example.ag3
                  (Ok (PList [PStr "SS1"; PStr "SS2"])) ltac:(vm_compute; reflexivity))
      as Hprep.
    destruct (proj2 (proj2 sample_metadata_assembly) 1 (PStr "v3") _
                (Some ("20200422", "aim")) Example.ag3 _ df release.2 Hprep H)
      as (dfs & Hdfs & Hlen & Hrows & Hidx & _ & _ & Hcol & _).
    assert (Hd : Ok dfs = (mapM (fun c => sample_metadata 1 c (Some ("20200422", "aim")))
                             [PStr "SS1"; PStr "SS2"]
                             (_prep_sample_sets_arg (PStr "v3") Example.ag3).2).1)
      by (by rewrite Hdfs).
    set (v := (mapM _ _ _).1) in Hd. vm_compute in v. subst v.
    injection Hd as Hd. rewrite Hd in Hrows, Hcol.
    split; [rewrite Hidx, Hrows; reflexivity|].
    assert (Hnames : Ok (column_names df)
                     = match release.1 with
                       | Ok d => Ok (column_names d)
                       | Raise e => Raise e
                       end) by (by rewrite H).
    set (v := match release.1 with Ok d => _ | Raise e => _ end) in Hnames.
    vm_compute in v. subst v. injection Hnames as Hnames.
    split.
    + rewrite (Hcol "sample_id") by (rewrite Hnames, !elem_of_cons; auto 10).
      reflexivity.
    + rewrite (Hcol "sample_set") by (rewrite Hnames, !elem_of_cons; auto 10).
      reflexivity.
Defined.

(** ** Accessibility *)


Lemma is_accessible_Ok_inv contig mask sf s a s' :
  is_accessible contig mask sf s = (Ok a, s') ->
  exists g s1 pos s2 filter_pass,
    genome_sequence contig s = (Ok g, s1) /\
    snp_sites contig (Some "POS") None default_analysis s1
      = (Ok (Single (IntArray pos)), s2) /\
    site_filters contig mask default_field sf s2 = (Ok filter_pass, s') /\
    np_setitem (replicate (length g) false) (map (fun p => (p - 1)%Z) pos) filter_pass
      = Ok a.
Proof.
  unfold is_accessible. intros (g & s1 & Hg & H)%bind_Ok_inv.
  apply bind_Ok_inv in H as (r & s2 & Hr & H).
  apply bind_Ok_inv in H as (p & ? & [Hp ->]%lift_inv & H).
  apply bind_Ok_inv in H as (fp & s3 & Hfp & H).
  apply bind_Ok_inv in H as (idx & ? & [Hidx ->]%lift_inv & [Hset ->]%lift_inv).
  destruct r as [x|l]; [|done]. injection Hp as ->.
  destruct p as [pos|bytes]; [|done]. injection Hidx as <-.
  exists g, s1, pos, s2, fp. auto.
Qed.

Lemma np_setitem_length a idx vals a' :
  np_setitem a idx vals = Ok a' -> length a' = length a.
Proof.
  unfold np_setitem. destruct (broadcast_to (length idx) vals); [|done].
  apply scatter_length.
Qed.

(** Distinct non-negative indices: each position written holds its value. *)
Lemma scatter_written a idx vals a' k i v :
  NoDup idx ->
  Forall (fun i => (0 <= i < Z.of_nat (length a))%Z) idx ->
  scatter a idx vals = Ok a' ->
  idx !! k = Some i -> vals !! k = Some v ->
  a' !! Z.to_nat i = Some v.
Proof.
  revert a vals k. induction idx as [|i0 idx IH]; intros a [|v0 vals] k Hnd Hall;
    simpl; try done.
  inversion Hall as [|? ? Hi0 Hidx]; subst. apply NoDup_cons in Hnd as [Hni Hnd].
  rewrite normalize_index_nonneg by done. intros H.
  destruct k as [|k]; simpl.
  - intros [= <-] [= <-].
    rewrite (scatter_untouched _ _ _ _ (Z.to_nat i0) H).
    + apply list_lookup_insert_eq. lia.
    + rewrite length_insert. apply Forall_forall. intros j Hj.
      rewrite Forall_forall in Hidx. rewrite normalize_index_nonneg by auto.
      intros [= Heq]. apply Hni. assert (j = i0) as -> by (specialize (Hidx j Hj); lia).
      done.
  - intros Hk Hv. apply (IH (<[Z.to_nat i0:=v0]> a) vals k); try done.
    by rewrite length_insert.
Qed.

(** A store whose site list names one position twice. *)
Module Duplicate.
Definition sites : zgroup sarray :=
  {[ "3R" := {[ "variants" := {[ "POS" := IntArray [2; 2]%Z ]} ]} ]}.
Definition filters : zgroup (list bool) :=
  {[ "3R" := {[ "variants" := {[ "filter_pass" := [true; true] ]} ]} ]}.
Definition genome : gmap string (list ascii) := {[ "3R" := ["A"; "C"; "G"]%char ]}.
Definition fs : FileSystem :=
  mkFS (Example.table [("root", ["root/v3"])])
       (fun _ => None)
       (Example.table [("root/v3/site_filters/dt_20200416/gamb_colu/", filters)])
       (Example.table [("root/v3/snp_genotypes/all/sites/", sites)])
       (fun _ => None)
       (Example.table
          [("root/reference/genome/agamp4/Anopheles-gambiae-PEST_CHROMOSOMES_AgamP4.zarr",
            genome)]).
Definition ag3 : Ag3 := mkAg3 fs "root" ["v3"] ∅ ∅ ∅ ∅ None ∅ None 0 [].
End Duplicate.

(** C4, as stated, fails: a position listed twice is written twice and
    counted once, so the vector has fewer true entries than the filter
    array has True values. *)
Lemma is_accessible_duplicate_positions :
  __init__ Duplicate.fs "root" false = Ok Duplicate.ag3 /\
  (is_accessible "3R" "gamb_colu" default_analysis Duplicate.ag3).1
    = Ok [false; true; false] /\
  (site_filters "3R" "gamb_colu" default_field default_analysis Duplicate.ag3).1
    = Ok [true; true] /\
  count_true [false; true; false] <> count_true [true; true].
Proof.
  split; [reflexivity|]. split; [vm_compute; reflexivity|].
  split; [vm_compute; reflexivity|]. vm_compute. lia.
Qed.

(** C4, amended. [is_accessible] returns a boolean vector as long as the
    genome sequence of the contig, built from the all-false vector by writing,
    for each site in turn, the site's filter value at index pos-1.  When
    every position lies in 1..length and the filter array has one entry per
    site, the positions absent from the site list stay false; when moreover
    the positions are pairwise distinct, each site's index holds the site's
    filter value and the number of true entries is the number of True values
    of the filter array. *)
Theorem is_accessible_scatter contig mask sf s a s' :
  is_accessible contig mask sf s = (Ok a, s') ->
  exists g s1 pos s2 filter_pass,
    genome_sequence contig s = (Ok g, s1) /\
    snp_sites contig (Some "POS") None default_analysis s1
      = (Ok (Single (IntArray pos)), s2) /\
    site_filters contig mask default_field sf s2 = (Ok filter_pass, s') /\
    length a = length g /\
    np_setitem (replicate (length g) false) (map (fun p => (p - 1)%Z) pos) filter_pass
      = Ok a /\
    (Forall (fun p => (1 <= p <= Z.of_nat (length g))%Z) pos ->
     length filter_pass = length pos ->
     (forall i, i < length g -> Z.of_nat (S i) ∉ pos -> a !! i = Some false) /\
     (NoDup pos ->
      (forall k p v, pos !! k = Some p -> filter_pass !! k = Some v ->
                     a !! Z.to_nat (p - 1) = Some v) /\
      count_true a = count_true filter_pass)).
Proof.
  intros (g & s1 & pos & s2 & fp & Hg & Hpos & Hfp & Hset)%is_accessible_Ok_inv.
  exists g, s1, pos, s2, fp. do 3 (split; [done|]).
  pose proof (np_setitem_length _ _ _ _ Hset) as Hlen. rewrite length_replicate in Hlen.
  split; [done|]. split; [done|]. intros Hrange Hal.
  unfold np_setitem in Hset.
  rewrite broadcast_to_same in Hset by (by rewrite length_map).
  assert (Hidx : Forall (fun i => (0 <= i < Z.of_nat (length (replicate (length g) false)))%Z)
                   (map (fun p => (p - 1)%Z) pos)).
  { rewrite length_replicate. rewrite map_fmap. apply Forall_fmap.
    eapply Forall_impl; [exact Hrange|]. simpl. intros p Hp. lia. }
  split.
  - intros i Hi Hni. rewrite (scatter_untouched _ _ _ _ i Hset).
    + by apply lookup_replicate_2.
    + rewrite length_replicate. rewrite map_fmap. apply Forall_fmap, Forall_forall.
      intros p Hp. simpl. rewrite Forall_forall in Hrange.
      rewrite normalize_index_nonneg by (specialize (Hrange p Hp); lia).
      intros [= Heq]. apply Hni. replace (Z.of_nat (S i)) with p; [done|].
      specialize (Hrange p Hp). lia.
  - intros Hnd.
    assert (Hnd' : NoDup (map (fun p => (p - 1)%Z) pos)).
    { assert (Hinj : Inj eq eq (fun p : Z => (p - 1)%Z)) by (intros x y ?; lia).
      rewrite map_fmap. by apply (NoDup_fmap_2 _). }
    split.
    + intros k p v Hk Hv.
      apply (scatter_written _ _ _ _ k (p - 1)%Z v Hnd' Hidx Hset); [|done].
      by rewrite map_lookup, Hk.
    + assert (Hl : length fp = length (map (fun p => (p - 1)%Z) pos))
        by (by rewrite length_map).
      assert (Hclear : Forall (fun i =>
                (0 <= i < Z.of_nat (length (replicate (length g) false)))%Z /\
                replicate (length g) false !! Z.to_nat i = Some false)
                (map (fun p => (p - 1)%Z) pos)).
      { rewrite Forall_forall in Hidx. apply Forall_forall. intros i Hi.
        split; [by apply Hidx|]. apply lookup_replicate_2.
        specialize (Hidx i Hi). rewrite length_replicate in Hidx. lia. }
      rewrite (scatter_count _ _ _ _ Hl Hnd' Hclear Hset).
      by rewrite count_true_replicate_false.
Qed.

Lemma is_accessible_scatter_witness :
  let r := is_accessible "3R" "gamb_colu" default_analysis Example.ag3 in
  r.1 = Ok [false; true; false; false; true; false] /\
  exists a, r = (Ok a, r.2) /\ length a = 6 /\ count_true a = 2.
Proof.
  intros r. split; [vm_compute; reflexivity|].
  assert (H : exists a, r = (Ok a, r.2)) by (eexists; apply run_fst; vm_compute; reflexivity).
  destruct H as [a H]. exists a. split; [exact H|].
  destruct (is_accessible_scatter "3R" "gamb_colu" default_analysis Example.ag3 a r.2 H)
    as (g & s1 & pos & s2 & fp & Hg & Hpos & Hfp & Hlen & Hset & Hrest).
  assert (Eg : g = Example.genome !!! "3R").
  { assert (Hx : Ok g = Ok (Example.genome !!! "3R")); [|by injection Hx].
    etrans; [exact (eq_sym (f_equal fst Hg))|]. vm_compute. reflexivity. }
  assert (Es1 : s1 = (genome_sequence "3R" Example.ag3).2) by (by rewrite Hg).
  assert (Epos : pos = [2; 4; 5]%Z).
  { assert (Hx : Ok (Single (IntArray pos)) = Ok (Single (IntArray [2; 4; 5]%Z)));
      [|by injection Hx].
    etrans; [exact (eq_sym (f_equal fst Hpos))|]. rewrite Es1. vm_compute. reflexivity. }
  assert (Es2 : s2 = (snp_sites "3R" (Some "POS") None default_analysis s1).2)
    by (by rewrite Hpos).
  assert (Efp : fp = [true; false; true]).
  { assert (Hx : Ok fp = Ok [true; false; true]); [|by injection Hx].
    etrans; [exact (eq_sym (f_equal fst Hfp))|]. rewrite Es2, Es1.
    vm_compute. reflexivity. }
  subst g pos fp. split; [rewrite Hlen; vm_compute; reflexivity|].
  destruct Hrest as [_ Hcount].
  - vm_compute. repeat constructor; discriminate.
  - reflexivity.
  - destruct Hcount as [_ ->]; [|vm_compute; reflexivity].
    repeat constructor; rewrite ?elem_of_cons, ?elem_of_nil; intros H'; decompose [or] H';
      discriminate || done.
Defined.

(** A store whose site list holds the position 0. *)
Module Wrap.
Definition sites : zgroup sarray :=
  {[ "3R" := {[ "variants" := {[ "POS" := IntArray [0]%Z ]} ]} ]}.
Definition filters : zgroup (list bool) :=
  {[ "3R" := {[ "variants" := {[ "filter_pass" := [true] ]} ]} ]}.
Definition fs : FileSystem :=
  mkFS (Example.table [("root", ["root/v3"])])
       (fun _ => None)
       (Example.table [("root/v3/site_filters/dt_20200416/gamb_colu/", filters)])
       (Example.table [("root/v3/snp_genotypes/all/sites/", sites)])
       (fun _ => None)
       (Example.table
          [("root/reference/genome/agamp4/Anopheles-gambiae-PEST_CHROMOSOMES_AgamP4.zarr",
            Duplicate.genome)]).
Definition ag3 : Ag3 := mkAg3 fs "root" ["v3"] ∅ ∅ ∅ ∅ None ∅ None 0 [].
End Wrap.




